(** * Bit-Earth smart-meter reader: a shallow embedding of
      [hardware/iot-integration/python/iot_sensor_reader.py]

    The development has four layers.
    - [Bytes], [Sha256], [PyStr], [Json]: the parts of Python's runtime the
      reader calls ([hashlib.sha256], [str.encode], [bytes.fromhex],
      [json.dumps] with [sort_keys=True, separators=(',', ':')]).
    - [PyFloat]: the arithmetic of Python's [float], as an interface with two
      instances: IEEE 754 binary64 (Rocq's primitive floats) and exact
      rationals.
    - the reader itself: [SensorReading], [PoEPacket], [SmartMeterReader] and
      its methods, written in a state-and-exception monad.
    - the properties. *)

From Stdlib Require Import ZArith List Bool Lia.
From Stdlib.Strings Require Import String Ascii Byte.
From Stdlib Require Import Permutation.
From Stdlib Require Import DecimalString.
From Stdlib Require Import Floats.
From Stdlib Require Import QArith Qround Lqa.

Import ListNotations.
Local Open Scope Z_scope.

Set Implicit Arguments.
Set Warnings "-register-all".

(** ** Bytes *)

Module Bytes.

(** Python's [bytes]: a sequence of octets. *)
Definition bytes := list byte.

Definition to_Z (b : byte) : Z := Z.of_N (Byte.to_N b).

Definition of_Z (z : Z) : byte :=
  match Byte.of_N (Z.to_N (z mod 256)) with
  | Some b => b
  | None => x00
  end.

Definition hex_digit (n : Z) : ascii :=
  if n <? 10 then ascii_of_N (Z.to_N (48 + n))
  else ascii_of_N (Z.to_N (87 + n)).

(** [bytes.hex()]: two lower-case digits per octet. *)
Fixpoint hex (bs : bytes) : string :=
  match bs with
  | [] => EmptyString
  | b :: rest =>
      String (hex_digit (to_Z b / 16))
             (String (hex_digit (to_Z b mod 16)) (hex rest))
  end.

Definition hex_value (c : ascii) : option Z :=
  let n := Z.of_N (N_of_ascii c) in
  if (48 <=? n) && (n <=? 57) then Some (n - 48)
  else if (97 <=? n) && (n <=? 102) then Some (n - 87)
  else if (65 <=? n) && (n <=? 70) then Some (n - 55)
  else None.

(** The characters [bytes.fromhex] skips between octets. *)
Definition is_ascii_space (c : ascii) : bool :=
  let n := Z.of_N (N_of_ascii c) in
  (n =? 32) || ((9 <=? n) && (n <=? 13)).

(** [bytes.fromhex(s)]: pairs of hexadecimal digits, ASCII whitespace
    allowed between pairs; [None] is Python's [ValueError]. *)
Fixpoint fromhex (s : string) : option bytes :=
  match s with
  | EmptyString => Some []
  | String c rest =>
      if is_ascii_space c then fromhex rest
      else
        match rest with
        | EmptyString => None
        | String d rest' =>
            match hex_value c, hex_value d, fromhex rest' with
            | Some h, Some l, Some bs => Some (of_Z (16 * h + l) :: bs)
            | _, _, _ => None
            end
        end
  end.

End Bytes.

(** ** SHA-256 (FIPS 180-4), as [hashlib.sha256] computes it *)

Module Sha256.
Import Bytes.

Definition word := Z.
Definition wrap (x : Z) : word := x mod 4294967296.
Definition add32 (x y : word) : word := wrap (x + y).
Definition rotr (n : Z) (x : word) : word :=
  Z.lor (Z.shiftr x n) (wrap (Z.shiftl x (32 - n))).
Definition shr (n : Z) (x : word) : word := Z.shiftr x n.
Definition not32 (x : word) : word := 4294967295 - x.

Definition Ch (x y z : word) : word :=
  Z.lxor (Z.land x y) (Z.land (not32 x) z).
Definition Maj (x y z : word) : word :=
  Z.lxor (Z.lxor (Z.land x y) (Z.land x z)) (Z.land y z).
Definition Sigma0 (x : word) : word :=
  Z.lxor (Z.lxor (rotr 2 x) (rotr 13 x)) (rotr 22 x).
Definition Sigma1 (x : word) : word :=
  Z.lxor (Z.lxor (rotr 6 x) (rotr 11 x)) (rotr 25 x).
Definition sigma0 (x : word) : word :=
  Z.lxor (Z.lxor (rotr 7 x) (rotr 18 x)) (shr 3 x).
Definition sigma1 (x : word) : word :=
  Z.lxor (Z.lxor (rotr 17 x) (rotr 19 x)) (shr 10 x).

(** The constants are defined as FIPS 180-4 defines them: the first 32 bits
    of the fractional parts of the cube roots ([K]) and of the square roots
    ([H0]) of the first primes. *)

Definition is_prime (n : Z) : bool :=
  (1 <? n)
  && forallb (fun d => negb (n mod Z.of_nat d =? 0)) (seq 2 (Z.to_nat n - 2)).

Definition first_primes (count : nat) : list Z :=
  firstn count (filter is_prime (map Z.of_nat (seq 2 400))).

(** The largest [r] below [2 ^ width] with [r ^ k <= n], found bit by bit. *)
Fixpoint root_bits (width : nat) (k n acc : Z) : Z :=
  match width with
  | O => acc
  | S width' =>
      let candidate := acc + 2 ^ Z.of_nat width' in
      root_bits width' k n (if candidate ^ k <=? n then candidate else acc)
  end.

(** The first 32 bits of the fractional part of the [k]-th root of [p]. *)
Definition root_fraction (k p : Z) : word :=
  wrap (root_bits 40 k (p * 2 ^ (32 * k)) 0).

Definition K : list word :=
  Eval vm_compute in map (root_fraction 3) (first_primes 64).

Definition H0 : list word :=
  Eval vm_compute in map (root_fraction 2) (first_primes 8).

(** Big-endian encoding of [x] on [n] octets. *)
Fixpoint be_bytes (n : nat) (x : Z) : bytes :=
  match n with
  | O => []
  | S n' => of_Z (Z.shiftr x (8 * Z.of_nat n')) :: be_bytes n' x
  end.

(** The message, a one bit, zeros up to 56 modulo 64, the bit length. *)
Definition pad (msg : bytes) : bytes :=
  let len := Z.of_nat (List.length msg) in
  let zeros := Z.to_nat ((55 - len) mod 64) in
  msg ++ [of_Z 128] ++ repeat x00 zeros ++ be_bytes 8 (8 * len).

Fixpoint be_words (bs : bytes) : list word :=
  match bs with
  | a :: b :: c :: d :: rest =>
      (to_Z a * 16777216 + to_Z b * 65536 + to_Z c * 256 + to_Z d)
        :: be_words rest
  | _ => []
  end.

(** The list cut into chunks of [n] elements ([fuel] bounds the number of
    chunks). *)
Fixpoint chunks {A} (fuel n : nat) (l : list A) : list (list A) :=
  match fuel, l with
  | O, _ | _, [] => []
  | S fuel', _ => firstn n l :: chunks fuel' n (skipn n l)
  end.

(** The eight working variables and a window [W_t .. W_(t+15)] of the
    message schedule. *)
Definition round_state := (list word * list word)%type.

Definition round (st : round_state) (k : word) : round_state :=
  match st with
  | ([a; b; c; d; e; f; g; h], w) =>
      let wt := nth 0 w 0 in
      let t1 := add32 (add32 (add32 (add32 h (Sigma1 e)) (Ch e f g)) k) wt in
      let t2 := add32 (Sigma0 a) (Maj a b c) in
      let next :=
        add32 (add32 (add32 (sigma1 (nth 14 w 0)) (nth 9 w 0))
                     (sigma0 (nth 1 w 0))) wt in
      ([add32 t1 t2; a; b; c; add32 d t1; e; f; g], tl w ++ [next])
  | _ => st
  end.

Definition compress (h : list word) (block : list word) : list word :=
  let '(v, _) := fold_left round K (h, block) in
  map (fun p => add32 (fst p) (snd p)) (combine h v).

Definition digest_words (msg : bytes) : list word :=
  let padded := pad msg in
  fold_left compress
    (chunks (List.length padded) 16 (be_words padded)) H0.

(** [hashlib.sha256(msg).digest()] *)
Definition digest (msg : bytes) : bytes :=
  flat_map (be_bytes 4) (digest_words msg).

(** [hashlib.sha256(msg).hexdigest()] *)
Definition hexdigest (msg : bytes) : string := hex (digest msg).

End Sha256.

(** ** Python strings

    A [str] is modelled by a Rocq [string] read as a sequence of code points
    below 256: every [ascii] is one code point.  Comparison of strings is
    Python's (lexicographic on code points), which is [String.compare]. *)

Module PyStr.
Import Bytes.
Local Open Scope string_scope.
Local Open Scope Z_scope.

(** [s.encode()], UTF-8: one octet below 128, two octets from 128 to 255. *)
Fixpoint encode (s : string) : bytes :=
  match s with
  | EmptyString => []
  | String c rest =>
      let n := Z.of_N (N_of_ascii c) in
      if n <? 128 then of_Z n :: encode rest
      else of_Z (192 + n / 64) :: of_Z (128 + n mod 64) :: encode rest
  end.

(** [str(n)] for an [int]. *)
Definition of_int (n : Z) : string := NilZero.string_of_int (Z.to_int n).

Fixpoint join (sep : string) (l : list string) : string :=
  match l with
  | [] => ""
  | [s] => s
  | s :: rest => s ++ sep ++ join sep rest
  end.

Definition chr (n : Z) : string := String (ascii_of_N (Z.to_N n)) "".

(** ['\\u{0:04x}'.format(n)] for a code point below 256. *)
Definition u_escape (n : Z) : string :=
  chr 92 ++ "u00" ++ String (hex_digit (n / 16)) (String (hex_digit (n mod 16)) "").

(** One character of [json.encoder.encode_basestring_ascii]. *)
Definition escape_char (c : ascii) : string :=
  let n := Z.of_N (N_of_ascii c) in
  if n =? 34 then chr 92 ++ chr 34
  else if n =? 92 then chr 92 ++ chr 92
  else if n =? 10 then chr 92 ++ "n"
  else if n =? 13 then chr 92 ++ "r"
  else if n =? 9 then chr 92 ++ "t"
  else if n =? 8 then chr 92 ++ "b"
  else if n =? 12 then chr 92 ++ "f"
  else if (32 <=? n) && (n <=? 126) then String c ""
  else u_escape n.

Fixpoint escape (s : string) : string :=
  match s with
  | EmptyString => ""
  | String c rest => escape_char c ++ escape rest
  end.

(** A JSON string literal, [ensure_ascii=True]. *)
Definition quote (s : string) : string := chr 34 ++ escape s ++ chr 34.

End PyStr.

(** ** Exceptions and results *)

(** The exception classes the reader meets.  [RequestException] stands for
    [requests.exceptions.RequestException] and its subclasses (time-outs,
    refused connections, failed name resolution); [KeyboardInterrupt] is the
    only one here that is not an [Exception]. *)
Inductive exn : Type :=
| KeyError (key : string)
| ValueError
| OverflowError
| RequestException (reason : string)
| RuntimeError (reason : string)
| KeyboardInterrupt.

Definition is_RequestException (e : exn) : bool :=
  match e with RequestException _ => true | _ => false end.

(** [isinstance(e, Exception)] *)
Definition is_Exception (e : exn) : bool :=
  match e with KeyboardInterrupt => false | _ => true end.

Inductive Res (A : Type) : Type :=
| Ok (a : A)
| Raise (e : exn).
Arguments Ok {A} a.
Arguments Raise {A} e.

(** ** The arithmetic of [float] *)

(** What the reader asks of Python's numbers.  [of_int] converts an integer
    literal; [gt x y] is [x > y]; [to_int] is [int(x)], which truncates toward
    zero and raises on an infinity or a NaN; [floatstr] is the text
    [json.dumps] writes for a float. *)
Class PyFloat (F : Type) : Type := {
  of_int : Z -> F;
  add : F -> F -> F;
  sub : F -> F -> F;
  mul : F -> F -> F;
  div : F -> F -> F;
  gt : F -> F -> bool;
  to_int : F -> Res Z;
  floatstr : F -> string
}.

Declare Scope pyfloat_scope.
Delimit Scope pyfloat_scope with py.
Infix "+" := add : pyfloat_scope.
Infix "-" := sub : pyfloat_scope.
Infix "*" := mul : pyfloat_scope.
Infix "/" := div : pyfloat_scope.
Infix ">?" := gt (at level 70, no associativity) : pyfloat_scope.

(** [max(a, b)] on two arguments: [b] when [b > a], else [a]. *)
Definition pymax {F} `{PyFloat F} (a b : F) : F :=
  if (b >? a)%py then b else a.

(** ** JSON values and [json.dumps] *)

Module Json.
Import PyStr.
Local Open Scope string_scope.

Section Values.
Context {F : Type} `{PyFloat F}.

(** The values [json.dumps] serialises.  A [dict] keeps its items in
    insertion order, as Python's does; its keys are strings. *)
Inductive value : Type :=
| JNull
| JBool (b : bool)
| JInt (n : Z)
| JFloat (x : F)
| JStr (s : string)
| JList (l : list value)
| JDict (items : list (string * value)).

Definition dict := list (string * value).

(** [d.get(k)] *)
Fixpoint get (k : string) (d : dict) : option value :=
  match d with
  | [] => None
  | (k', v) :: rest => if String.eqb k k' then Some v else get k rest
  end.

(** [d[k] = v]: in place when the key is present, appended otherwise. *)
Fixpoint set (k : string) (v : value) (d : dict) : dict :=
  match d with
  | [] => [(k, v)]
  | (k', v') :: rest =>
      if String.eqb k k' then (k, v) :: rest else (k', v') :: set k v rest
  end.

(** The dictionary without the key [k]. *)
Fixpoint remove (k : string) (d : dict) : dict :=
  match d with
  | [] => []
  | (k', v') :: rest =>
      if String.eqb k k' then remove k rest else (k', v') :: remove k rest
  end.

Definition keys (d : dict) : list string := map fst d.

(** [sort_keys=True]: the items ordered by key.  The sort reads the keys
    only, so it is run on the items with their values already rendered. *)
Fixpoint insert_item {V} (kv : string * V) (l : list (string * V))
  : list (string * V) :=
  match l with
  | [] => [kv]
  | kv' :: rest =>
      if String.leb (fst kv) (fst kv') then kv :: l
      else kv' :: insert_item kv rest
  end.

Definition sort_items {V} (l : list (string * V)) : list (string * V) :=
  fold_right insert_item [] l.

(** [separators=(',', ':')] *)
Definition render_item (kv : string * string) : string :=
  quote (fst kv) ++ ":" ++ snd kv.

(** [json.dumps(v, sort_keys=True, separators=(',', ':'))] *)
Fixpoint dumps (v : value) : string :=
  match v with
  | JNull => "null"
  | JBool true => "true"
  | JBool false => "false"
  | JInt n => PyStr.of_int n
  | JFloat x => floatstr x
  | JStr s => quote s
  | JList l => "[" ++ join "," (map dumps l) ++ "]"
  | JDict items =>
      "{" ++ join ","
               (map render_item
                  (sort_items (map (fun kv => (fst kv, dumps (snd kv))) items)))
          ++ "}"
  end.

End Values.
Arguments value F : clear implicits.
Arguments dict F : clear implicits.

End Json.

(** ** IEEE 754 binary64: Python's [float] *)

Module IEEE.
Import PyStr.
Local Open Scope string_scope.
Local Open Scope Z_scope.

(** [int(x)]: truncation toward zero; [OverflowError] on an infinity,
    [ValueError] on a NaN. *)
Definition trunc (x : float) : Res Z :=
  match Prim2SF x with
  | S754_zero _ => Ok 0
  | S754_infinity _ => Raise OverflowError
  | S754_nan => Raise ValueError
  | S754_finite s m e =>
      let a := if 0 <=? e then Z.pos m * 2 ^ e else Z.pos m / 2 ^ (- e) in
      Ok (if s then - a else a)
  end.

(** *** [float.__repr__]: the shortest decimal that reads back as the
    same float *)

Definition Q10 (k : Z) : Q := Qpower (inject_Z 10) k.
Definition Q2 (k : Z) : Q := Qpower (inject_Z 2) k.
Definition Qltb (a b : Q) : bool := negb (Qle_bool b a).

(** A first guess of [floor (log10 (m * 2^e))] from the bit length, then
    corrected. *)
Definition log10_floor (m : positive) (e : Z) : Z :=
  let x := (inject_Z (Z.pos m) * Q2 e)%Q in
  let p0 := ((Z.log2 (Z.pos m) + e) * 1233) / 4096 in
  let p1 := if Qltb x (Q10 p0) then p0 - 1 else p0 in
  if Qle_bool (Q10 (p1 + 1)) x then p1 + 1 else p1.

(** The decimals [D * 10^k] that round to the float [m * 2^e]: those
    between the midpoints to its two neighbours, the midpoints included
    when [m] is even (ties round to even). *)
Definition rounds_back (m : positive) (e : Z) (D k : Z) : bool :=
  let x := (inject_Z (Z.pos m) * Q2 e)%Q in
  let up := Q2 (e - 1) in
  let down :=
    if (Z.pos m =? 2 ^ 52) && (-1074 <? e) then Q2 (e - 2) else Q2 (e - 1) in
  let d := (inject_Z D * Q10 k)%Q in
  if Z.even (Z.pos m)
  then Qle_bool (x - down) d && Qle_bool d (x + up)
  else Qltb (x - down) d && Qltb d (x + up).

(** The [n]-digit candidate: the decimal just below or just above, the nearer
    of the two when both read back (the even one on a tie). *)
Definition candidate (m : positive) (e p : Z) (n : Z) : option (Z * Z) :=
  let x := (inject_Z (Z.pos m) * Q2 e)%Q in
  let k := p - n + 1 in
  let lo := Qfloor (x / Q10 k) in
  let hi := lo + 1 in
  let below := (x - inject_Z lo * Q10 k)%Q in
  let above := (inject_Z hi * Q10 k - x)%Q in
  match rounds_back m e lo k && (0 <? lo), rounds_back m e hi k with
  | true, true =>
      if Qltb below above then Some (lo, k)
      else if Qltb above below then Some (hi, k)
      else if Z.even lo then Some (lo, k) else Some (hi, k)
  | true, false => Some (lo, k)
  | false, true => Some (hi, k)
  | false, false => None
  end.

Fixpoint shortest (fuel : nat) (m : positive) (e p : Z) (n : Z) : Z * Z :=
  match fuel with
  | O => (Z.pos m, e)
  | S fuel' =>
      match candidate m e p n with
      | Some Dk => Dk
      | None => shortest fuel' m e p (n + 1)
      end
  end.

(** Trailing zeros moved from the digits to the exponent. *)
Fixpoint strip_zeros (fuel : nat) (D k : Z) : Z * Z :=
  match fuel with
  | O => (D, k)
  | S fuel' =>
      if (D mod 10 =? 0) && negb (D =? 0) then strip_zeros fuel' (D / 10) (k + 1)
      else (D, k)
  end.

Fixpoint zeros (n : nat) : string :=
  match n with O => "" | S n' => "0" ++ zeros n' end.

(** The digits [ds] with the decimal point after the first [decpt] of them:
    scientific notation when [decpt <= -4] or [decpt > 16], positional
    notation otherwise, a [.0] added to an integer. *)
Definition format_repr (ds : string) (decpt : Z) : string :=
  let n := Z.of_nat (String.length ds) in
  if (decpt <=? -4) || (16 <? decpt) then
    let x := decpt - 1 in
    let mant :=
      match ds with
      | String c EmptyString => ds
      | String c rest => String c ("." ++ rest)
      | EmptyString => ds
      end in
    let ex := PyStr.of_int (Z.abs x) in
    mant ++ "e" ++ (if x <? 0 then "-" else "+")
         ++ (if Z.abs x <? 10 then "0" else "") ++ ex
  else if decpt <=? 0 then "0." ++ zeros (Z.to_nat (- decpt)) ++ ds
  else if n <=? decpt then ds ++ zeros (Z.to_nat (decpt - n)) ++ ".0"
  else substring 0 (Z.to_nat decpt) ds ++ "."
         ++ substring (Z.to_nat decpt) (Z.to_nat (n - decpt)) ds.

Definition repr_finite (s : bool) (m : positive) (e : Z) : string :=
  let p := log10_floor m e in
  let '(D0, k0) := shortest 17 m e p 1 in
  let '(D, k) := strip_zeros 20 D0 k0 in
  let ds := PyStr.of_int D in
  (if s then "-" else "") ++ format_repr ds (Z.of_nat (String.length ds) + k).

(** [float.__repr__(x)] *)
Definition repr (x : float) : string :=
  match Prim2SF x with
  | S754_zero s => if s then "-0.0" else "0.0"
  | S754_infinity s => if s then "-inf" else "inf"
  | S754_nan => "nan"
  | S754_finite s m e => repr_finite s m e
  end.

(** [json.encoder]'s [floatstr], [allow_nan=True]. *)
Definition json_floatstr (x : float) : string :=
  match Prim2SF x with
  | S754_infinity s => if s then "-Infinity" else "Infinity"
  | S754_nan => "NaN"
  | _ => repr x
  end.

(** [float(n)] for an integer literal: the nearest float. *)
Definition of_Z (n : Z) : float :=
  SF2Prim (binary_normalize 53 1024 n 0 false).

#[export] Instance binary64 : PyFloat float := {
  of_int := of_Z;
  add := PrimFloat.add;
  sub := PrimFloat.sub;
  mul := PrimFloat.mul;
  div := PrimFloat.div;
  gt := fun x y => PrimFloat.ltb y x;
  to_int := trunc;
  floatstr := json_floatstr
}.

End IEEE.

(** ** Exact rationals: the arithmetic with rounding left out *)

Module Exact.

Definition trunc (q : Q) : Res Z := Ok (Z.quot (Qnum q) (Z.pos (Qden q))).

(** Rationals have no Python text of their own: the rendering is a
    parameter. *)
Definition rationals (repr : Q -> string) : PyFloat Q := {|
  of_int := inject_Z;
  add := Qplus;
  sub := Qminus;
  mul := Qmult;
  div := Qdiv;
  gt := fun x y => negb (Qle_bool x y);
  to_int := trunc;
  floatstr := repr
|}.

End Exact.

(** ** The reader *)

Section Reader.
Context {F : Type} `{PyFloat F}.
Import Json.
Local Open Scope string_scope.
Local Open Scope Z_scope.

(** *** Data classes *)

(** A number as the configuration file gives it: [json.load] makes an
    [int] of an integer and a [float] of a decimal.  The reader copies the
    configured power factor and grid frequency into every reading as they
    are, so a reading carries an [int] where the file has an integer. *)
Inductive Number : Type :=
| NInt (n : Z)
| NFloat (x : F).

(** The value Python computes with when a [float] meets the number:
    [float(n)] for an [int].  (An integer beyond the range of [float],
    above 1.7e308, would raise [OverflowError] instead; such a
    configuration is not modelled.) *)
Definition number_value (n : Number) : F :=
  match n with
  | NInt k => of_int k
  | NFloat x => x
  end.

(** The number as [json.dumps] sees it. *)
Definition number_json (n : Number) : value F :=
  match n with
  | NInt k => JInt k
  | NFloat x => JFloat x
  end.

(** The voltage, the current, the temperature and the humidity are what
    [round] returns, or the [0.0] of a failed read: floats.  The power
    factor and the frequency come from the configuration. *)
Record SensorReading : Type := {
  timestamp : Z;
  voltage : F;
  current : F;
  power_factor : Number;
  frequency : Number;
  temperature : F;
  humidity : F
}.

(** [dataclasses.asdict] of a [SensorReading] *)
Definition asdict_reading (r : SensorReading) : dict F :=
  [ ("timestamp", JInt (timestamp r));
    ("voltage", JFloat (voltage r));
    ("current", JFloat (current r));
    ("power_factor", number_json (power_factor r));
    ("frequency", number_json (frequency r));
    ("temperature", JFloat (temperature r));
    ("humidity", JFloat (humidity r)) ]%list.

Record PoEPacket : Type := {
  device_id : string;
  packet_timestamp : Z;
  energy_wh : Z;
  cumulative_energy : Z;
  sensor_readings : list (dict F);
  firmware_version : string;
  protocol_version : string
}.

(** [dataclasses.asdict] of a [PoEPacket]: the fields in declaration
    order. *)
Definition asdict_packet (p : PoEPacket) : dict F :=
  [ ("device_id", JStr (device_id p));
    ("timestamp", JInt (packet_timestamp p));
    ("energy_wh", JInt (energy_wh p));
    ("cumulative_energy", JInt (cumulative_energy p));
    ("sensor_readings", JList (map (@JDict F) (sensor_readings p)));
    ("firmware_version", JStr (firmware_version p));
    ("protocol_version", JStr (protocol_version p)) ]%list.

(** *** Configuration and the reader object *)

(** The configuration dictionary, required keys present (as [load_config]
    checks) and the optional keys the reader looks up. *)
Record Config : Type := {
  cfg_meter_id : string;
  cfg_oracle_url : string;
  cfg_private_key : string;
  cfg_reading_interval : option F;
  cfg_manufacturer : option string;
  cfg_serial_number : option string
}.

Record SmartMeterReader : Type := {
  config : Config;
  meter_id : string;
  oracle_url : string;
  private_key : Bytes.bytes;
  cumulative_energy_wh : F;
  last_reading_time : F;
  reading_interval : F;
  readings_sent : Z;
  readings_failed : Z
}.

(** [config.get(key, default)] *)
Definition get_default {A} (o : option A) (default : A) : A :=
  match o with Some a => a | None => default end.

(** [SmartMeterReader.__init__]; [now] is what [time.time()] returns.  The
    sensor bus is not modelled. *)
Definition init (cfg : Config) (now : F) : Res SmartMeterReader :=
  match Bytes.fromhex (cfg_private_key cfg) with
  | None => Raise ValueError
  | Some key =>
      Ok {| config := cfg;
            meter_id := cfg_meter_id cfg;
            oracle_url := cfg_oracle_url cfg;
            private_key := key;
            cumulative_energy_wh := of_int 0;
            last_reading_time := now;
            reading_interval := get_default (cfg_reading_interval cfg) (of_int 300);
            readings_sent := 0;
            readings_failed := 0 |}
  end.

(** *** What a run can be observed to do *)

Inductive Event : Type :=
| EvPacket (packet : dict F)               (* [create_poe_packet] returned *)
| EvPost (url : string) (packet : dict F)  (* [requests.post] was called *)
| EvSleep (seconds : F)                    (* [time.sleep] until the next cycle *)
| EvWarn (cycle_time : F)                  (* the cycle overran the interval *)
| EvCooldown.                              (* [time.sleep(60)] after an error *)

(** *** State, exceptions and observations

    The state is the reader object and [run]'s local [reading_buffer]; an
    exception leaves the state as it was when it was raised. *)

Record World : Type := {
  this : SmartMeterReader;
  reading_buffer : list SensorReading
}.

Definition M (A : Type) : Type := World -> Res A * World * list Event.

Definition ret {A} (a : A) : M A := fun w => (Ok a, w, []%list).

Definition bind {A B} (m : M A) (k : A -> M B) : M B :=
  fun w =>
    match m w with
    | (Ok a, w1, ev1) => let '(r, w2, ev2) := k a w1 in (r, w2, (ev1 ++ ev2)%list)
    | (Raise e, w1, ev1) => (Raise e, w1, ev1)
    end.

Definition raise {A} (e : exn) : M A := fun w => (Raise e, w, []%list).

Definition lift {A} (r : Res A) : M A :=
  match r with Ok a => ret a | Raise e => raise e end.

Definition emit (ev : Event) : M unit := fun w => (Ok tt, w, [ev]%list).

Definition get_self : M SmartMeterReader := fun w => (Ok (this w), w, []%list).

Definition set_self (s : SmartMeterReader) : M unit :=
  fun w => (Ok tt, {| this := s; reading_buffer := reading_buffer w |}, []%list).

Definition get_buffer : M (list SensorReading) :=
  fun w => (Ok (reading_buffer w), w, []%list).

Definition set_buffer (b : list SensorReading) : M unit :=
  fun w => (Ok tt, {| this := this w; reading_buffer := b |}, []%list).

(** [try: body except ...: handler]; [handler e] is [None] when no clause
    matches [e]. *)
Definition try_except {A} (body : M A) (handler : exn -> option (M A)) : M A :=
  fun w =>
    match body w with
    | (Raise e, w1, ev1) =>
        match handler e with
        | Some h => let '(r, w2, ev2) := h w1 in (r, w2, (ev1 ++ ev2)%list)
        | None => (Raise e, w1, ev1)
        end
    | done => done
    end.

End Reader.

Arguments Number F : clear implicits.
Arguments NInt {F} n.
Arguments SensorReading F : clear implicits.
Arguments PoEPacket F : clear implicits.
Arguments Config F : clear implicits.
Arguments SmartMeterReader F : clear implicits.
Arguments Event F : clear implicits.
Arguments World F : clear implicits.
Arguments M F A : clear implicits.
Arguments EvCooldown {F}.

Declare Scope reader_scope.
Delimit Scope reader_scope with reader.
Notation "x <- c ;; k" := (bind c (fun x => k))
  (at level 61, c at next level, right associativity) : reader_scope.
Notation "c ;; k" := (bind c (fun _ => k))
  (at level 61, right associativity) : reader_scope.

(** *** The methods of [SmartMeterReader] *)

Section Methods.
Context {F : Type} `{PyFloat F}.
Import Json.
Local Open Scope string_scope.
Local Open Scope Z_scope.
Local Open Scope reader_scope.

Definition with_cumulative_energy_wh (x : F) (s : SmartMeterReader F) :=
  {| config := config s; meter_id := meter_id s; oracle_url := oracle_url s;
     private_key := private_key s;
     cumulative_energy_wh := x;
     last_reading_time := last_reading_time s;
     reading_interval := reading_interval s;
     readings_sent := readings_sent s;
     readings_failed := readings_failed s |}.

Definition with_last_reading_time (x : F) (s : SmartMeterReader F) :=
  {| config := config s; meter_id := meter_id s; oracle_url := oracle_url s;
     private_key := private_key s;
     cumulative_energy_wh := cumulative_energy_wh s;
     last_reading_time := x;
     reading_interval := reading_interval s;
     readings_sent := readings_sent s;
     readings_failed := readings_failed s |}.

Definition with_readings_sent (n : Z) (s : SmartMeterReader F) :=
  {| config := config s; meter_id := meter_id s; oracle_url := oracle_url s;
     private_key := private_key s;
     cumulative_energy_wh := cumulative_energy_wh s;
     last_reading_time := last_reading_time s;
     reading_interval := reading_interval s;
     readings_sent := n;
     readings_failed := readings_failed s |}.

Definition with_readings_failed (n : Z) (s : SmartMeterReader F) :=
  {| config := config s; meter_id := meter_id s; oracle_url := oracle_url s;
     private_key := private_key s;
     cumulative_energy_wh := cumulative_energy_wh s;
     last_reading_time := last_reading_time s;
     reading_interval := reading_interval s;
     readings_sent := readings_sent s;
     readings_failed := n |}.

(** [calculate_energy(self, reading, time_delta)] *)
Definition calculate_energy (reading : SensorReading F) (time_delta : F)
  : M F F :=
  let apparent_power := (voltage reading * current reading)%py in
  let real_power :=
    (apparent_power * number_value (power_factor reading))%py in
  let energy_wh := ((real_power * time_delta) / of_int 3600)%py in
  ret (pymax (of_int 0) energy_wh).

(** [generate_device_id(self)] *)
Definition generate_device_id : M F string :=
  self <- get_self ;;
  let device_info :=
    meter_id self ++ ":"
      ++ get_default (cfg_manufacturer (config self)) "unknown" ++ ":"
      ++ get_default (cfg_serial_number (config self)) "0000" in
  ret (Sha256.hexdigest (PyStr.encode device_info)).

(** [sign_packet(self, packet)] *)
Definition sign_packet (packet : dict F) : M F string :=
  self <- get_self ;;
  let canonical_json := dumps (JDict packet) in
  let message_hash := Sha256.digest (PyStr.encode canonical_json) in
  let simulated_sig := Sha256.hexdigest (message_hash ++ private_key self)%list in
  ret simulated_sig.

(** [create_poe_packet(self, energy_wh, readings)]; [now] is what
    [time.time()] returns. *)
Definition create_poe_packet (now : F) (energy_wh : F)
    (readings : list (SensorReading F)) : M F (dict F) :=
  device <- generate_device_id ;;
  stamp <- lift (to_int (now * of_int 1000)%py) ;;
  energy <- lift (to_int energy_wh) ;;
  self <- get_self ;;
  cumulative <- lift (to_int (cumulative_energy_wh self)) ;;
  let packet :=
    {| device_id := device;
       packet_timestamp := stamp;
       energy_wh := energy;
       cumulative_energy := cumulative;
       sensor_readings := map asdict_reading readings;
       firmware_version := "1.0.0";
       protocol_version := "poe-v1" |} in
  let packet_dict := asdict_packet packet in
  signature <- sign_packet packet_dict ;;
  let packet_dict := set "signature" (JStr signature) packet_dict in
  let packet_dict := set "meter_id" (JStr (meter_id self)) packet_dict in
  ret packet_dict.

(** What [requests.post] does: it answers, or it raises a
    [RequestException] (time-out, refused connection, failed name
    resolution), or it raises some other [Exception], or the process is
    interrupted while the request is under way, which raises
    [KeyboardInterrupt], not an [Exception]. *)
Inductive PostOutcome : Type :=
| Response (status_code : Z) (text : string)
| NetworkError (reason : string)
| OtherError (reason : string)
| Interrupted.

Definition requests_post (url : string) (packet : dict F)
    (outcome : PostOutcome) : M F (Z * string) :=
  emit (EvPost url packet) ;;
  match outcome with
  | Response status_code text => ret (status_code, text)
  | NetworkError reason => raise (RequestException reason)
  | OtherError reason => raise (RuntimeError reason)
  | Interrupted => raise KeyboardInterrupt
  end.

(** [packet[key]] *)
Definition getitem (packet : dict F) (key : string) : M F (value F) :=
  match get key packet with
  | Some v => ret v
  | None => raise (KeyError key)
  end.

Definition count_sent : M F unit :=
  self <- get_self ;;
  set_self (with_readings_sent (readings_sent self + 1) self).

Definition count_failed : M F unit :=
  self <- get_self ;;
  set_self (with_readings_failed (readings_failed self + 1) self).

(** [send_to_oracle(self, packet)]; [outcome] is what [requests.post]
    does.  The log line before the request reads [packet['energy_wh']]. *)
Definition send_to_oracle (outcome : PostOutcome) (packet : dict F)
  : M F bool :=
  try_except
    (_ <- getitem packet "energy_wh" ;;
     self <- get_self ;;
     response <- requests_post (oracle_url self ++ "/submit-poe") packet outcome ;;
     if fst response =? 200 then
       count_sent ;; ret true
     else
       count_failed ;; ret false)
    (fun e =>
       if is_RequestException e then Some (count_failed ;; ret false)
       else if is_Exception e then Some (count_failed ;; ret false)
       else None).

(** *** The main loop *)

(** What one iteration of [run]'s loop reads from outside: the clock at
    its four [time.time()] calls, the sensors, the network, and whether an
    interrupt arrives during the sleep that ends the iteration. *)
Record CycleEnv : Type := {
  env_cycle_start : F;
  env_reading : SensorReading F;
  env_current_time : F;
  env_packet_time : F;
  env_post : PostOutcome;
  env_cycle_end : F;
  env_interrupt : bool
}.

Definition buffer_size : Z := 6.

(** [time.sleep(seconds)] *)
Definition sleep (seconds : F) (interrupt : bool) : M F unit :=
  emit (EvSleep seconds) ;;
  if interrupt then raise KeyboardInterrupt else ret tt.

(** The body of the [try] in [run]'s loop. *)
Definition cycle (env : CycleEnv) : M F unit :=
  let cycle_start := env_cycle_start env in
  let reading := env_reading env in
  buffer <- get_buffer ;;
  set_buffer (buffer ++ [reading])%list ;;
  buffer <- get_buffer ;;
  (if buffer_size <? Z.of_nat (List.length buffer)
   then set_buffer (tl buffer) else ret tt) ;;
  let current_time := env_current_time env in
  self <- get_self ;;
  let time_delta := (current_time - last_reading_time self)%py in
  energy_wh <- calculate_energy reading time_delta ;;
  (if (energy_wh >? of_int 0)%py then
     self <- get_self ;;
     set_self (with_cumulative_energy_wh
                 (cumulative_energy_wh self + energy_wh)%py self) ;;
     buffer <- get_buffer ;;
     poe_packet <- create_poe_packet (env_packet_time env) energy_wh buffer ;;
     emit (EvPacket poe_packet) ;;
     _ <- send_to_oracle (env_post env) poe_packet ;;
     ret tt
   else ret tt) ;;
  self <- get_self ;;
  set_self (with_last_reading_time current_time self) ;;
  let cycle_time := (env_cycle_end env - cycle_start)%py in
  self <- get_self ;;
  let sleep_time := pymax (of_int 0) (reading_interval self - cycle_time)%py in
  if (sleep_time >? of_int 0)%py then sleep sleep_time (env_interrupt env)
  else emit (EvWarn cycle_time).

(** [while True: try: ... except KeyboardInterrupt: break
    except Exception: time.sleep(60)], over the iterations [envs]
    describes. *)
Fixpoint run_loop (envs : list CycleEnv) : M F unit :=
  fun w =>
    match envs with
    | [] => (Ok tt, w, [])
    | env :: rest =>
        match cycle env w with
        | (Ok _, w1, ev1) =>
            let '(r, w2, ev2) := run_loop rest w1 in (r, w2, ev1 ++ ev2)
        | (Raise e, w1, ev1) =>
            if is_Exception e then
              let '(r, w2, ev2) := run_loop rest w1 in
              (r, w2, ev1 ++ EvCooldown :: ev2)
            else (Ok tt, w1, ev1)
        end
    end%list.

(** [run(self)]: the loop, from an empty buffer.  (The diagnostic that
    [run] logs first reads the sensors and changes nothing.) *)
Definition run (envs : list CycleEnv) : M F unit :=
  set_buffer [] ;;
  run_loop envs.

End Methods.

Arguments PostOutcome : clear implicits.
Arguments CycleEnv F : clear implicits.

(** ** Start-up: the configuration file and the command line *)

Section Startup.
Context {F : Type} `{PyFloat F}.
Import Json.
Local Open Scope string_scope.
Local Open Scope Z_scope.

(** What [open] and [json.load] do with the configuration file: there is
    no such file, or it cannot be read, or its text is not JSON, or it
    holds a JSON value. *)
Inductive FileOutcome : Type :=
| FileMissing
| Unreadable (reason : string)
| Malformed
| Parsed (config : value F).

(** The exceptions of the start-up.  [MissingField field] is the
    [ValueError] that [load_config] raises with the message
    [Missing required field: <field>]. *)
Inductive StartupError : Type :=
| FileNotFoundError
| OSError (reason : string)
| JSONDecodeError
| MissingField (field : string)
| TypeError.

(** [field in config]: a key of a dictionary, an element of a list, a
    substring of a string; any other value is not a container
    ([TypeError]). *)
Definition contains (config : value F) (field : string) : option bool :=
  match config with
  | JDict items =>
      Some (match get field items with Some _ => true | None => false end)
  | JList l =>
      Some (existsb (fun v => match v with
                              | JStr s => String.eqb s field
                              | _ => false
                              end) l)
  | JStr s =>
      Some (match String.index 0 field s with Some _ => true | None => false end)
  | _ => None
  end.

Definition required_fields : list string :=
  ["meter_id"; "oracle_url"; "private_key"].

(** The validation loop of [load_config]: the first field that is
    missing stops it. *)
Fixpoint check_fields (fields : list string) (config : value F)
  : option StartupError :=
  match fields with
  | [] => None
  | field :: rest =>
      match contains config field with
      | None => Some TypeError
      | Some false => Some (MissingField field)
      | Some true => check_fields rest config
      end
  end.

(** [load_config(config_file)]; the two [except] clauses log and raise
    again. *)
Definition load_config (file : FileOutcome) : StartupError + value F :=
  match file with
  | FileMissing => inl FileNotFoundError
  | Unreadable reason => inl (OSError reason)
  | Malformed => inl JSONDecodeError
  | Parsed config =>
      match check_fields required_fields config with
      | Some e => inl e
      | None => inr config
      end
  end.

(** [main]: [if args.interval: config['reading_interval'] = args.interval];
    [interval] is [None] when the option is absent. *)
Definition override_interval (interval : option Z) (config : value F)
  : StartupError + value F :=
  match interval with
  | None => inr config
  | Some n =>
      if n =? 0 then inr config
      else
        match config with
        | JDict items => inr (JDict (set "reading_interval" (JInt n) items))
        | _ => inl TypeError
        end
  end.

End Startup.

Arguments FileOutcome F : clear implicits.
Arguments FileMissing {F}.
Arguments Unreadable {F} reason.
Arguments Malformed {F}.

(** * Properties *)

Unset Implicit Arguments.

(** ** The order of strings *)

Lemma ascii_compare_as_N (a b : ascii) :
  Ascii.compare a b = N.compare (N_of_ascii a) (N_of_ascii b).
Proof. reflexivity. Qed.

Lemma string_compare_cons (a b : ascii) (s t : string) :
  String.compare (String a s) (String b t) =
  match Ascii.compare a b with
  | Eq => String.compare s t
  | c => c
  end.
Proof. simpl. destruct (Ascii.compare a b); reflexivity. Qed.

Lemma string_compare_trans_le (s t u : string) :
  String.compare s t <> Gt -> String.compare t u <> Gt ->
  String.compare s u <> Gt.
Proof.
  revert t u.
  induction s as [|a s IH]; intros [|b t] [|c u]; simpl; try congruence.
  rewrite !ascii_compare_as_N.
  destruct (N.compare_spec (N_of_ascii a) (N_of_ascii b)) as [Eab|Lab|Gab];
    destruct (N.compare_spec (N_of_ascii b) (N_of_ascii c)) as [Ebc|Lbc|Gbc];
    try congruence; intros Hst Htu.
  - rewrite Eab, Ebc, N.compare_refl. eapply IH; eassumption.
  - rewrite Eab. apply N.compare_lt_iff in Lbc. rewrite Lbc. discriminate.
  - rewrite <- Ebc. apply N.compare_lt_iff in Lab. rewrite Lab. discriminate.
  - assert (L : (N_of_ascii a < N_of_ascii c)%N) by (eapply N.lt_trans; eassumption).
    apply N.compare_lt_iff in L. rewrite L. discriminate.
Qed.

Lemma string_leb_trans (s t u : string) :
  String.leb s t = true -> String.leb t u = true -> String.leb s u = true.
Proof.
  unfold String.leb. intros Hst Htu.
  assert (H1 : String.compare s t <> Gt)
    by (destruct (String.compare s t); congruence).
  assert (H2 : String.compare t u <> Gt)
    by (destruct (String.compare t u); congruence).
  pose proof (@string_compare_trans_le s t u H1 H2) as H3.
  destruct (String.compare s u); congruence.
Qed.

(** Of two different strings exactly one is below the other. *)
Lemma string_leb_exclusive (s t : string) :
  s <> t -> String.leb s t = negb (String.leb t s).
Proof.
  intros Hne.
  destruct (String.leb s t) eqn:Hst, (String.leb t s) eqn:Hts; try reflexivity.
  - exfalso. apply Hne. apply String.leb_antisym; assumption.
  - destruct (String.leb_total s t); congruence.
Qed.

(** ** [sort_keys]: the sorted items do not depend on the insertion order *)

Section SortItems.
Context {V : Type}.
Implicit Types (a b : string * V) (l : list (string * V)).

Lemma insert_item_swap a b l :
  fst a <> fst b ->
  Json.insert_item a (Json.insert_item b l) =
  Json.insert_item b (Json.insert_item a l).
Proof.
  intros Hne.
  assert (Hab : String.leb (fst a) (fst b) = negb (String.leb (fst b) (fst a)))
    by (apply string_leb_exclusive; assumption).
  induction l as [|c l IH]; simpl.
  - rewrite Hab. destruct (String.leb (fst b) (fst a)); reflexivity.
  - destruct (String.leb (fst b) (fst c)) eqn:Hbc,
             (String.leb (fst a) (fst c)) eqn:Hac; simpl;
      rewrite ?Hbc, ?Hac.
    + rewrite Hab. destruct (String.leb (fst b) (fst a)); simpl;
        rewrite ?Hbc, ?Hac; reflexivity.
    + destruct (String.leb (fst a) (fst b)) eqn:Hab'.
      * rewrite (string_leb_trans _ _ _ Hab' Hbc) in Hac. discriminate.
      * reflexivity.
    + destruct (String.leb (fst b) (fst a)) eqn:Hba.
      * rewrite (string_leb_trans _ _ _ Hba Hac) in Hbc. discriminate.
      * reflexivity.
    + rewrite IH. reflexivity.
Qed.

Lemma sort_items_permutation l l' :
  Permutation l l' -> NoDup (map fst l) ->
  Json.sort_items l = Json.sort_items l'.
Proof.
  induction 1 as [|x l l' Hp IH|x y l|l l' l'' Hp1 IH1 Hp2 IH2];
    intros Hnd; simpl.
  - reflexivity.
  - inversion Hnd; subst. rewrite IH by assumption. reflexivity.
  - apply insert_item_swap.
    inversion Hnd as [|? ? Hin _]; subst.
    intros E. apply Hin. left. symmetry. exact E.
  - rewrite IH1 by assumption. apply IH2.
    eapply Permutation_NoDup; [|exact Hnd].
    apply Permutation_map. assumption.
Qed.

End SortItems.

(** ** Reading a computation's outcome *)

Ltac case_if :=
  match goal with
  | |- context [if ?c then _ else _] => destruct c eqn:?
  end.

Definition result {F A} (x : Res A * World F * list (Event F)) : Res A :=
  fst (fst x).
Definition world {F A} (x : Res A * World F * list (Event F)) : World F :=
  snd (fst x).
Definition events {F A} (x : Res A * World F * list (Event F))
  : list (Event F) := snd x.

(** The signature [sign_packet] computes with the key [key]. *)
Definition signature_of {F} `{PyFloat F} (key : Bytes.bytes)
    (packet : Json.dict F) : string :=
  Sha256.hexdigest
    (Sha256.digest (PyStr.encode (Json.dumps (Json.JDict packet))) ++ key).

(** ** The methods, one by one *)

Section MethodFacts.
Context {F : Type} `{PyFloat F}.
Import Json.
Local Open Scope string_scope.
Local Open Scope Z_scope.
Implicit Types (w : World F) (packet : dict F).

Lemma calculate_energy_returns (reading : SensorReading F) (time_delta : F) w :
  calculate_energy reading time_delta w =
  (Ok (pymax (of_int 0)
         ((voltage reading * current reading
           * number_value (power_factor reading)
           * time_delta) / of_int 3600)%py), w, []).
Proof. reflexivity. Qed.

Lemma sign_packet_returns packet w :
  sign_packet packet w = (Ok (signature_of (private_key (this w)) packet), w, []).
Proof. reflexivity. Qed.

Lemma generate_device_id_returns w :
  exists device, generate_device_id w = (Ok device, w, []).
Proof. eexists. reflexivity. Qed.

Lemma count_sent_returns w :
  count_sent w =
  (Ok tt,
   {| this := with_readings_sent (readings_sent (this w) + 1) (this w);
      reading_buffer := reading_buffer w |}, []).
Proof. reflexivity. Qed.

Lemma count_failed_returns w :
  count_failed w =
  (Ok tt,
   {| this := with_readings_failed (readings_failed (this w) + 1) (this w);
      reading_buffer := reading_buffer w |}, []).
Proof. reflexivity. Qed.

(** The five ways through [send_to_oracle]. *)
Lemma send_to_oracle_cases (outcome : PostOutcome) packet w :
  send_to_oracle outcome packet w =
  match get "energy_wh" packet with
  | None => (Ok false, world (count_failed w), [])
  | Some _ =>
      let posted := EvPost (oracle_url (this w) ++ "/submit-poe") packet in
      match outcome with
      | Response status_code _ =>
          if status_code =? 200
          then (Ok true, world (count_sent w), [posted])
          else (Ok false, world (count_failed w), [posted])
      | NetworkError _ | OtherError _ =>
          (Ok false, world (count_failed w), [posted])
      | Interrupted => (Raise KeyboardInterrupt, w, [posted])
      end
  end.
Proof.
  unfold send_to_oracle, try_except, bind, getitem.
  destruct (get "energy_wh" packet) as [v|]; [|reflexivity].
  destruct outcome as [status_code text|reason|reason|]; try reflexivity.
  simpl. destruct (status_code =? 200); reflexivity.
Qed.

(** [create_poe_packet] changes nothing and observes nothing; it returns the
    signed dictionary, or raises what a failing [int()] raises. *)
Lemma create_poe_packet_cases (now energy_wh : F)
    (readings : list (SensorReading F)) w :
  (exists e, create_poe_packet now energy_wh readings w = (Raise e, w, []))
  \/
  (exists device stamp energy cumulative,
      to_int (now * of_int 1000)%py = Ok stamp /\
      to_int energy_wh = Ok energy /\
      to_int (cumulative_energy_wh (this w)) = Ok cumulative /\
      let signed :=
        asdict_packet
          {| device_id := device;
             packet_timestamp := stamp;
             energy_wh := energy;
             cumulative_energy := cumulative;
             sensor_readings := map asdict_reading readings;
             firmware_version := "1.0.0";
             protocol_version := "poe-v1" |} in
      create_poe_packet now energy_wh readings w =
      (Ok (signed ++
             [("signature", JStr (signature_of (private_key (this w)) signed));
              ("meter_id", JStr (meter_id (this w)))])%list,
       w, [])).
Proof.
  unfold create_poe_packet, bind, lift.
  destruct (generate_device_id_returns w) as [device ->].
  destruct (to_int (now * of_int 1000)%py) as [stamp|e] eqn:E1;
    [|left; exists e; reflexivity].
  destruct (to_int energy_wh) as [energy|e] eqn:E2;
    [|left; exists e; reflexivity].
  destruct (to_int (cumulative_energy_wh (this w))) as [cumulative|e] eqn:E3.
  - right. exists device, stamp, energy, cumulative.
    repeat split. cbv zeta. unfold ret, get_self. cbv beta iota.
    rewrite E3. cbv beta iota. rewrite sign_packet_returns. reflexivity.
  - left. exists e. unfold ret, get_self. cbv beta iota. rewrite E3. reflexivity.
Qed.

End MethodFacts.

(** ** One iteration of the loop *)

Section CycleFacts.
Context {F : Type} `{PyFloat F}.
Import Json.
Local Open Scope string_scope.
Local Open Scope Z_scope.
Implicit Types (w : World F) (env : CycleEnv F).

(** The buffer after the reading is appended and the oldest one dropped. *)
Definition rolled (buffer : list (SensorReading F)) (reading : SensorReading F)
  : list (SensorReading F) :=
  let appended := (buffer ++ [reading])%list in
  if buffer_size <? Z.of_nat (List.length appended) then tl appended
  else appended.

(** The increment [calculate_energy] returns in the iteration [env] started
    in [w]. *)
Definition increment env w : F :=
  match
    result (calculate_energy (env_reading env)
              (env_current_time env - last_reading_time (this w))%py w)
  with
  | Ok energy_wh => energy_wh
  | Raise _ => of_int 0
  end.

(** How an iteration ends: the sleep up to the next one, which an interrupt
    may cut short, or the warning that the iteration overran. *)
Definition pause env (self : SmartMeterReader F) : Res unit * list (Event F) :=
  let cycle_time := (env_cycle_end env - env_cycle_start env)%py in
  let sleep_time := pymax (of_int 0) (reading_interval self - cycle_time)%py in
  if (sleep_time >? of_int 0)%py then
    (if env_interrupt env then Raise KeyboardInterrupt else Ok tt,
     [EvSleep sleep_time])
  else (Ok tt, [EvWarn cycle_time]).

Lemma send_to_oracle_total (outcome : PostOutcome) (packet : dict F) w :
  ((exists ok, result (send_to_oracle outcome packet w) = Ok ok) \/
   result (send_to_oracle outcome packet w) = Raise KeyboardInterrupt) /\
  reading_buffer (world (send_to_oracle outcome packet w)) = reading_buffer w.
Proof.
  rewrite send_to_oracle_cases.
  destruct (get "energy_wh" packet); [destruct outcome; [case_if| | |]|];
    (split; [|reflexivity]); try (left; eexists; reflexivity).
  right. reflexivity.
Qed.

Lemma increment_value env w :
  increment env w =
  pymax (of_int 0)
    ((voltage (env_reading env) * current (env_reading env)
      * number_value (power_factor (env_reading env))
      * (env_current_time env - last_reading_time (this w)))
     / of_int 3600)%py.
Proof. reflexivity. Qed.

Lemma cycle_skips env w :
  (increment env w >? of_int 0)%py = false ->
  let self := with_last_reading_time (env_current_time env) (this w) in
  cycle env w =
  (fst (pause env self),
   {| this := self;
      reading_buffer := rolled (reading_buffer w) (env_reading env) |},
   snd (pause env self)).
Proof.
  intros Hskip. rewrite increment_value in Hskip.
  unfold cycle, bind, get_buffer, set_buffer, get_self, set_self, pause, rolled.
  simpl.
  destruct (buffer_size <? _) eqn:Hroll; simpl; rewrite Hskip; clear Hskip;
    simpl; case_if; simpl; try reflexivity;
    unfold sleep, bind, emit; simpl; destruct (env_interrupt env); reflexivity.
Qed.

Lemma cycle_builds env w :
  (increment env w >? of_int 0)%py = true ->
  let energy_wh := increment env w in
  let buffer := rolled (reading_buffer w) (env_reading env) in
  let w1 :=
    {| this := with_cumulative_energy_wh
                 (cumulative_energy_wh (this w) + energy_wh)%py (this w);
       reading_buffer := buffer |} in
  match create_poe_packet (env_packet_time env) energy_wh buffer w1 with
  | (Raise e, _, _) => cycle env w = (Raise e, w1, [])
  | (Ok packet, _, _) =>
      let sent := send_to_oracle (env_post env) packet w1 in
      match result sent with
      | Raise e =>
          cycle env w =
          (Raise e,
           {| this := this (world sent); reading_buffer := buffer |},
           EvPacket packet :: events sent)
      | Ok _ =>
          let self := with_last_reading_time (env_current_time env)
                        (this (world sent)) in
          cycle env w =
          (fst (pause env self),
           {| this := self; reading_buffer := buffer |},
           EvPacket packet :: events sent ++ snd (pause env self))%list
      end
  end.
Proof.
  intros Hbuild. rewrite increment_value in *. cbv zeta.
  unfold cycle, bind, get_buffer, set_buffer, get_self, set_self, pause, rolled.
  simpl.
  destruct (buffer_size <? _) eqn:Hroll; simpl; rewrite Hbuild; simpl.
  all: match goal with
       | |- context [create_poe_packet ?a ?b ?c ?d] =>
           destruct (create_poe_packet_cases a b c d)
             as [[e E]|(dv & st & en & cu & _ & _ & _ & E)];
           cbv zeta in E; rewrite E
       end; simpl; try reflexivity.
  all: match goal with
       | |- context [send_to_oracle ?a ?b ?c] =>
           destruct (send_to_oracle_total a b c) as ([(ok & Hok)|Hok] & Hbuf);
           destruct (send_to_oracle a b c) as [[r w2] ev2] eqn:S
       end; unfold result, world, events in *; simpl in Hok, Hbuf; subst r;
       destruct w2 as [self2 buffer2]; simpl in Hbuf; subst buffer2; simpl;
       rewrite ?app_nil_r; try reflexivity.
  all: case_if; simpl; try reflexivity;
    unfold sleep, bind, emit; simpl; destruct (env_interrupt env); reflexivity.
Qed.

End CycleFacts.

(** ** Packets and counters *)

Section PacketFacts.
Context {F : Type} `{PyFloat F}.
Import Json.
Local Open Scope string_scope.
Local Open Scope Z_scope.
Implicit Types (w : World F) (env : CycleEnv F) (packet : dict F).

Definition is_packet_event (ev : Event F) : bool :=
  match ev with EvPacket _ | EvPost _ _ => true | _ => false end.

Lemma pause_events env (self : SmartMeterReader F) (ev : Event F) :
  In ev (snd (pause env self)) -> is_packet_event ev = false.
Proof.
  unfold pause. case_if; simpl; intros [<-|[]]; reflexivity.
Qed.

Lemma send_to_oracle_events (outcome : PostOutcome) packet w packet' :
  ~ In (EvPacket packet') (events (send_to_oracle outcome packet w)).
Proof.
  rewrite send_to_oracle_cases.
  destruct (get "energy_wh" packet); [destruct outcome; [case_if| | |]|];
    simpl; intuition discriminate.
Qed.

(** The packet an iteration builds, if it builds one: every packet event of
    the iteration carries the dictionary [create_poe_packet] returned. *)
Lemma cycle_packet env w packet :
  In (EvPacket packet) (events (cycle env w)) ->
  (increment env w >? of_int 0)%py = true /\
  result
    (create_poe_packet (env_packet_time env) (increment env w)
       (rolled (reading_buffer w) (env_reading env))
       {| this := with_cumulative_energy_wh
                    (cumulative_energy_wh (this w) + increment env w)%py
                    (this w);
          reading_buffer := rolled (reading_buffer w) (env_reading env) |})
  = Ok packet.
Proof.
  intros Hin.
  destruct (increment env w >? of_int 0)%py eqn:Hgt.
  - split; [reflexivity|].
    pose proof (cycle_builds env w Hgt) as Hc. cbv zeta in Hc.
    destruct (create_poe_packet _ _ _ _) as [[[p|e] w1] ev1].
    + destruct (result (send_to_oracle _ _ _)) as [ok|e];
        rewrite Hc in Hin; unfold events in Hin; simpl in Hin;
        (destruct Hin as [Hin|Hin]; [unfold result; simpl; congruence|]).
      * apply in_app_or in Hin. destruct Hin as [Hin|Hin].
        -- exfalso. eapply send_to_oracle_events. exact Hin.
        -- apply pause_events in Hin. discriminate.
      * exfalso. eapply send_to_oracle_events. exact Hin.
    + rewrite Hc in Hin. contradiction.
  - exfalso. rewrite (cycle_skips env w Hgt) in Hin.
    unfold events in Hin. simpl in Hin.
    apply pause_events in Hin. discriminate.
Qed.

(** C3 (as amended): in every iteration that builds a packet, the packet's
    [energy_wh] field is [int()] of the increment [calculate_energy]
    returned for the iteration's elapsed interval: the increment truncated
    toward zero, not the increment itself. *)
Theorem packet_energy_wh_is_truncated_increment env w packet :
  In (EvPacket packet) (events (cycle env w)) ->
  exists n : Z,
    to_int (increment env w) = Ok n /\
    get "energy_wh" packet = Some (JInt n).
Proof.
  intros Hin. apply cycle_packet in Hin. destruct Hin as [_ Hp].
  match type of Hp with
  | result (create_poe_packet ?a ?b ?c ?d) = _ =>
      destruct (create_poe_packet_cases a b c d)
        as [[e E]|(dv & st & en & cu & _ & Hen & _ & E)];
      cbv zeta in E; rewrite E in Hp; unfold result in Hp; simpl in Hp
  end; [discriminate|].
  injection Hp as <-. exists en. split; [exact Hen|reflexivity].
Qed.

(** C10: whenever the loop builds a packet, the cumulative total was raised
    by the iteration's increment before [create_poe_packet] ran, so the
    packet's [cumulative_energy] is [int(previous total + increment)]. *)
Theorem packet_cumulative_energy_includes_increment env w packet :
  In (EvPacket packet) (events (cycle env w)) ->
  exists n : Z,
    to_int (cumulative_energy_wh (this w) + increment env w)%py = Ok n /\
    get "cumulative_energy" packet = Some (JInt n).
Proof.
  intros Hin. apply cycle_packet in Hin. destruct Hin as [_ Hp].
  match type of Hp with
  | result (create_poe_packet ?a ?b ?c ?d) = _ =>
      destruct (create_poe_packet_cases a b c d)
        as [[e E]|(dv & st & en & cu & _ & _ & Hcu & E)];
      cbv zeta in E; rewrite E in Hp; unfold result in Hp; simpl in Hp
  end; [discriminate|].
  injection Hp as <-. exists cu. split; [exact Hcu|reflexivity].
Qed.

(** C9 (as amended): a call of [send_to_oracle] whose request is answered
    or fails with an [Exception], or whose packet has no [energy_wh] entry,
    returns: success exactly when the request was made and answered with
    status 200, and then [readings_sent] grows by one; failure in every
    other case (another status, a time-out or another network error, any
    other [Exception]), and then [readings_failed] grows by one; exactly
    one counter moves, up by one.  A call interrupted during the request
    raises [KeyboardInterrupt], which neither [except] clause catches, and
    moves neither counter.  No call makes a counter smaller. *)
Theorem send_to_oracle_counts_once (outcome : PostOutcome) packet w :
  exists (r : Res bool) (w' : World F) (evs : list (Event F)),
    send_to_oracle outcome packet w = (r, w', evs) /\
    (outcome = Interrupted /\ get "energy_wh" packet <> None ->
       r = Raise KeyboardInterrupt /\
       readings_sent (this w') = readings_sent (this w) /\
       readings_failed (this w') = readings_failed (this w)) /\
    (outcome <> Interrupted \/ get "energy_wh" packet = None ->
       exists ok : bool,
         r = Ok ok /\
         (ok = true <->
            (exists text, outcome = Response 200 text) /\
            get "energy_wh" packet <> None) /\
         readings_sent (this w')
           = readings_sent (this w) + (if ok then 1 else 0) /\
         readings_failed (this w')
           = readings_failed (this w) + (if ok then 0 else 1)) /\
    readings_sent (this w) <= readings_sent (this w') /\
    readings_failed (this w) <= readings_failed (this w').
Proof.
  rewrite send_to_oracle_cases.
  destruct (get "energy_wh" packet) as [v|].
  - destruct outcome as [status text|reason|reason|].
    + cbv zeta. destruct (status =? 200) eqn:Hs.
      * apply Z.eqb_eq in Hs. subst status.
        do 3 eexists. split; [reflexivity|]. simpl.
        split; [intros [E _]; discriminate|]. split; [|lia].
        intros _. exists true. repeat split; try lia; try discriminate.
        exists text. reflexivity.
      * apply Z.eqb_neq in Hs.
        do 3 eexists. split; [reflexivity|]. simpl.
        split; [intros [E _]; discriminate|]. split; [|lia].
        intros _. exists false. repeat split; try lia; try discriminate.
        intros [[text' E] _]. congruence.
    + do 3 eexists. split; [reflexivity|]. simpl.
      split; [intros [E _]; discriminate|]. split; [|lia].
      intros _. exists false. repeat split; try lia; try discriminate.
      intros [[text' E] _]. discriminate.
    + do 3 eexists. split; [reflexivity|]. simpl.
      split; [intros [E _]; discriminate|]. split; [|lia].
      intros _. exists false. repeat split; try lia; try discriminate.
      intros [[text' E] _]. discriminate.
    + do 3 eexists. split; [reflexivity|].
      split; [intros _; repeat split|]. split; [|lia].
      intros [E|E]; [congruence|discriminate].
  - do 3 eexists. split; [reflexivity|]. simpl.
    split; [intros [_ E]; congruence|]. split; [|lia].
    intros _. exists false. repeat split; try lia; try discriminate.
    intros [_ E]. congruence.
Qed.

(** C7 (as amended): of the responses with a status in 200..299, only
    status 200 is classified as success (the call returns success and adds
    one to [readings_sent]); for every status in 201..299 the call returns
    failure and adds one to [readings_failed]. *)
Theorem send_to_oracle_success_is_200 (status : Z) (text : string) packet w :
  get "energy_wh" packet <> None ->
  200 <= status <= 299 ->
  exists (w' : World F) (evs : list (Event F)),
    send_to_oracle (Response status text) packet w
      = (Ok (status =? 200), w', evs) /\
    readings_sent (this w')
      = readings_sent (this w) + (if status =? 200 then 1 else 0) /\
    readings_failed (this w')
      = readings_failed (this w) + (if status =? 200 then 0 else 1).
Proof.
  intros Hkey _. rewrite send_to_oracle_cases.
  destruct (get "energy_wh" packet) as [v|]; [|congruence].
  cbv zeta. destruct (status =? 200); do 2 eexists;
    (split; [reflexivity|]); simpl; split; lia.
Qed.

End PacketFacts.

(** ** The cumulative total *)

Section CumulativeFacts.
Context {F : Type} `{PyFloat F}.
Import Json.
Local Open Scope string_scope.
Local Open Scope Z_scope.
Implicit Types (w : World F) (env : CycleEnv F) (packet : dict F).

Lemma send_to_oracle_keeps_energy (outcome : PostOutcome) packet w :
  cumulative_energy_wh (this (world (send_to_oracle outcome packet w)))
    = cumulative_energy_wh (this w) /\
  last_reading_time (this (world (send_to_oracle outcome packet w)))
    = last_reading_time (this w).
Proof.
  rewrite send_to_oracle_cases.
  destruct (get "energy_wh" packet); [destruct outcome; [case_if| | |]|];
    split; reflexivity.
Qed.

Lemma create_poe_packet_keeps_world (now energy_wh : F)
    (readings : list (SensorReading F)) w :
  world (create_poe_packet now energy_wh readings w) = w /\
  events (create_poe_packet now energy_wh readings w) = [].
Proof.
  destruct (create_poe_packet_cases now energy_wh readings w)
    as [[e E]|(dv & st & en & cu & _ & _ & _ & E)];
    cbv zeta in E; rewrite E; split; reflexivity.
Qed.

(** What an iteration does to the cumulative total. *)
Lemma cycle_cumulative env w :
  cumulative_energy_wh (this (world (cycle env w))) =
  if (increment env w >? of_int 0)%py
  then (cumulative_energy_wh (this w) + increment env w)%py
  else cumulative_energy_wh (this w).
Proof.
  destruct (increment env w >? of_int 0)%py eqn:Hgt.
  - pose proof (cycle_builds env w Hgt) as Hc. cbv zeta in Hc.
    destruct (create_poe_packet _ _ _ _) as [[[p|e] w1] ev1];
      [|rewrite Hc; reflexivity].
    match type of Hc with
    | context [send_to_oracle ?a ?b ?c] =>
        destruct (send_to_oracle_keeps_energy a b c) as [Hcum _];
        destruct (result (send_to_oracle a b c)) as [ok|e]
    end; rewrite Hc; unfold world in *; simpl; rewrite Hcum; reflexivity.
  - rewrite (cycle_skips env w Hgt). reflexivity.
Qed.

(** C4 (as amended): [calculate_energy] returns the increment and has no side
    effect; the cumulative total is written by the loop in [run], which adds
    the returned increment when it is positive and leaves the total alone
    otherwise; [create_poe_packet], [sign_packet], [generate_device_id] and
    [send_to_oracle] do not write it. *)
Theorem cumulative_energy_is_written_by_run_only :
  (forall (reading : SensorReading F) (time_delta : F) w,
      exists energy_wh,
        calculate_energy reading time_delta w = (Ok energy_wh, w, [])) /\
  (forall env w,
      cumulative_energy_wh (this (world (cycle env w))) =
      if (increment env w >? of_int 0)%py
      then (cumulative_energy_wh (this w) + increment env w)%py
      else cumulative_energy_wh (this w)) /\
  (forall now energy_wh readings w,
      world (create_poe_packet now energy_wh readings w) = w) /\
  (forall packet w, world (sign_packet packet w) = w) /\
  (forall w, world (generate_device_id w) = w) /\
  (forall outcome packet w,
      cumulative_energy_wh (this (world (send_to_oracle outcome packet w)))
        = cumulative_energy_wh (this w)).
Proof.
  repeat split.
  - intros. eexists. apply calculate_energy_returns.
  - apply cycle_cumulative.
  - intros. apply create_poe_packet_keeps_world.
  - intros. apply send_to_oracle_keeps_energy.
Qed.

(** An iteration whose increment is not positive: nothing is built, nothing
    is sent, the reading is in the buffer and the clock has moved. *)
Lemma cycle_skip_effects env w :
  (increment env w >? of_int 0)%py = false ->
  (forall ev, In ev (events (cycle env w)) -> is_packet_event ev = false) /\
  readings_sent (this (world (cycle env w))) = readings_sent (this w) /\
  readings_failed (this (world (cycle env w))) = readings_failed (this w) /\
  cumulative_energy_wh (this (world (cycle env w)))
    = cumulative_energy_wh (this w) /\
  reading_buffer (world (cycle env w))
    = rolled (reading_buffer w) (env_reading env) /\
  last_reading_time (this (world (cycle env w))) = env_current_time env.
Proof.
  intros Hskip. rewrite (cycle_skips env w Hskip).
  unfold events, world. simpl. repeat split.
  intros ev. apply pause_events.
Qed.

(** The reading just appended is the last element of the rolled buffer. *)
Lemma rolled_ends_with (buffer : list (SensorReading F))
    (reading : SensorReading F) :
  exists older, rolled buffer reading = (older ++ [reading])%list.
Proof.
  unfold rolled. cbv zeta. case_if.
  - destruct buffer as [|r0 buffer'].
    + simpl in *. discriminate.
    + exists buffer'. reflexivity.
  - exists buffer. reflexivity.
Qed.

(** The increments [calculate_energy] returns over the iterations the loop
    runs: it stops at an interrupt. *)
Fixpoint increments (envs : list (CycleEnv F)) w : list F :=
  match envs with
  | [] => []
  | env :: rest =>
      increment env w ::
        match result (cycle env w) with
        | Ok _ => increments rest (world (cycle env w))
        | Raise e =>
            if is_Exception e then increments rest (world (cycle env w))
            else []
        end
  end%list.

Lemma run_loop_step env (rest : list (CycleEnv F)) w :
  world (run_loop (env :: rest) w) =
  match result (cycle env w) with
  | Ok _ => world (run_loop rest (world (cycle env w)))
  | Raise e =>
      if is_Exception e then world (run_loop rest (world (cycle env w)))
      else world (cycle env w)
  end.
Proof.
  simpl. destruct (cycle env w) as [[[u|e] w1] ev1]; unfold result, world; simpl.
  - destruct (run_loop rest w1) as [[r w2] ev2]. reflexivity.
  - destruct (is_Exception e); [|reflexivity].
    destruct (run_loop rest w1) as [[r w2] ev2]. reflexivity.
Qed.

(** The total after the loop: the positive increments added, in order, to
    the total before. *)
Lemma run_loop_cumulative (envs : list (CycleEnv F)) w :
  cumulative_energy_wh (this (world (run_loop envs w))) =
  fold_left add
    (filter (fun e => (e >? of_int 0)%py) (increments envs w))
    (cumulative_energy_wh (this w)).
Proof.
  revert w. induction envs as [|env rest IH]; intros w; [reflexivity|].
  rewrite run_loop_step. simpl increments.
  assert (Hstep :
    fold_left add
      (filter (fun e => (e >? of_int 0)%py) (increment env w :: nil))
      (cumulative_energy_wh (this w))
    = cumulative_energy_wh (this (world (cycle env w)))).
  { rewrite cycle_cumulative. simpl.
    destruct (increment env w >? of_int 0)%py; reflexivity. }
  assert (Hcons : forall l,
    fold_left add
      (filter (fun e => (e >? of_int 0)%py) (increment env w :: l))
      (cumulative_energy_wh (this w))
    = fold_left add (filter (fun e => (e >? of_int 0)%py) l)
        (cumulative_energy_wh (this (world (cycle env w))))).
  { intros l. rewrite cycle_cumulative. simpl.
    destruct (increment env w >? of_int 0)%py; reflexivity. }
  destruct (result (cycle env w)) as [u|e].
  - rewrite Hcons. apply IH.
  - destruct (is_Exception e).
    + rewrite Hcons. apply IH.
    + symmetry. exact Hstep.
Qed.

(** A reader fresh from [__init__] has a total of zero. *)
Lemma init_cumulative (cfg : Config F) (now : F) (self : SmartMeterReader F) :
  init cfg now = Ok self -> cumulative_energy_wh self = of_int 0.
Proof.
  unfold init. destruct (Bytes.fromhex _); [|discriminate].
  intros E. injection E as <-. reflexivity.
Qed.

Lemma run_from_empty_buffer (envs : list (CycleEnv F))
    (self : SmartMeterReader F) (buffer : list (SensorReading F)) :
  world (run envs {| this := self; reading_buffer := buffer |}) =
  world (run_loop envs {| this := self; reading_buffer := nil |}).
Proof.
  unfold run, bind, set_buffer. simpl.
  destruct (run_loop envs _) as [[r w2] ev2]. reflexivity.
Qed.

End CumulativeFacts.

(** ** The canonical encoding *)

Section CanonicalFacts.
Context {F : Type} `{PyFloat F}.
Import Json.
Local Open Scope string_scope.

Lemma dumps_dict (items : dict F) :
  dumps (JDict items) =
  "{" ++ PyStr.join ","
           (map render_item
              (sort_items (map (fun kv => (fst kv, dumps (snd kv))) items)))
      ++ "}".
Proof. reflexivity. Qed.

(** Induction on a value, through the lists and the dictionaries in it. *)
Section ValueInduction.
Variable P : value F -> Prop.
Hypothesis Hnull : P JNull.
Hypothesis Hbool : forall b, P (JBool b).
Hypothesis Hint : forall n, P (JInt n).
Hypothesis Hfloat : forall x, P (JFloat x).
Hypothesis Hstr : forall s, P (JStr s).
Hypothesis Hlist : forall l, Forall P l -> P (JList l).
Hypothesis Hdict :
  forall items, Forall (fun kv => P (snd kv)) items -> P (JDict items).

Fixpoint value_induction (v : value F) : P v :=
  match v with
  | JNull => Hnull
  | JBool b => Hbool b
  | JInt n => Hint n
  | JFloat x => Hfloat x
  | JStr s => Hstr s
  | JList l =>
      Hlist l
        ((fix all (l : list (value F)) : Forall P l :=
            match l with
            | [] => Forall_nil P
            | a :: rest => Forall_cons a (value_induction a) (all rest)
            end) l)
  | JDict items =>
      Hdict items
        ((fix all (d : list (string * value F))
            : Forall (fun kv => P (snd kv)) d :=
            match d with
            | [] => Forall_nil _
            | kv :: rest =>
                Forall_cons kv (value_induction (snd kv)) (all rest)
            end) items)
  end.

End ValueInduction.

(** What every Python value satisfies: a dictionary has each key once, at
    every depth. *)
Fixpoint distinct_keys (v : value F) : Prop :=
  match v with
  | JList l =>
      (fix all (l : list (value F)) : Prop :=
         match l with
         | [] => True
         | a :: rest => distinct_keys a /\ all rest
         end) l
  | JDict items =>
      NoDup (keys items) /\
      (fix all (d : list (string * value F)) : Prop :=
         match d with
         | [] => True
         | kv :: rest => distinct_keys (snd kv) /\ all rest
         end) items
  | _ => True
  end.

(** Two values with the same content: the same scalars, lists with the
    same content position by position, dictionaries with the same keys and,
    under each key, the same content, in whatever order the keys were
    inserted, at every depth. *)
Fixpoint same_content (v1 v2 : value F) : Prop :=
  match v1 with
  | JNull => v2 = JNull
  | JBool b => v2 = JBool b
  | JInt n => v2 = JInt n
  | JFloat x => v2 = JFloat x
  | JStr s => v2 = JStr s
  | JList l1 =>
      match v2 with
      | JList l2 =>
          (fix zip (l1 l2 : list (value F)) : Prop :=
             match l1, l2 with
             | [], [] => True
             | a :: rest1, b :: rest2 => same_content a b /\ zip rest1 rest2
             | _, _ => False
             end) l1 l2
      | _ => False
      end
  | JDict items1 =>
      match v2 with
      | JDict items2 =>
          List.length items1 = List.length items2 /\
          (fix all (d : list (string * value F)) : Prop :=
             match d with
             | [] => True
             | kv :: rest =>
                 match get (fst kv) items2 with
                 | Some b => same_content (snd kv) b
                 | None => False
                 end /\ all rest
             end) items1
      | _ => False
      end
  end.

Lemma distinct_keys_list (l : list (value F)) :
  distinct_keys (JList l) <-> Forall distinct_keys l.
Proof.
  induction l as [|a rest IH]; simpl.
  - split; [constructor|trivial].
  - simpl in IH. rewrite IH. split.
    + intros [Ha Hrest]. constructor; assumption.
    + intros Hall. inversion Hall; subst. split; assumption.
Qed.

Lemma distinct_keys_dict (items : dict F) :
  distinct_keys (JDict items) <->
  NoDup (keys items) /\ Forall (fun kv => distinct_keys (snd kv)) items.
Proof.
  simpl. apply and_iff_compat_l.
  induction items as [|kv rest IH].
  - split; [constructor|trivial].
  - rewrite IH. split.
    + intros [Ha Hrest]. constructor; assumption.
    + intros Hall. inversion Hall; subst. split; assumption.
Qed.

Lemma same_content_list (l1 l2 : list (value F)) :
  same_content (JList l1) (JList l2) <-> Forall2 same_content l1 l2.
Proof.
  revert l2. induction l1 as [|a rest IH]; intros [|b rest2]; simpl.
  - split; [constructor|trivial].
  - split; [intros []|intros Hall; inversion Hall].
  - split; [intros []|intros Hall; inversion Hall].
  - simpl in IH. rewrite IH. split.
    + intros [Ha Hrest]. constructor; assumption.
    + intros Hall. inversion Hall; subst. split; assumption.
Qed.

Lemma same_content_dict (items1 items2 : dict F) :
  same_content (JDict items1) (JDict items2) <->
  List.length items1 = List.length items2 /\
  Forall (fun kv => exists b, get (fst kv) items2 = Some b /\
                              same_content (snd kv) b) items1.
Proof.
  simpl. apply and_iff_compat_l.
  induction items1 as [|kv rest IH].
  - split; [constructor|trivial].
  - rewrite IH. split.
    + intros [Ha Hrest]. constructor; [|assumption].
      destruct (get (fst kv) items2) as [b|]; [|contradiction].
      exists b. split; [reflexivity|assumption].
    + intros Hall. inversion Hall as [|? ? (b & Hb & Hs) Hrest]; subst.
      rewrite Hb. split; assumption.
Qed.

Lemma get_in (k : string) (v : value F) (items : dict F) :
  get k items = Some v -> In (k, v) items.
Proof.
  induction items as [|[k' v'] rest IH]; simpl; [discriminate|].
  destruct (String.eqb k k') eqn:E.
  - apply String.eqb_eq in E. subst k'. intros E. injection E as ->.
    left. reflexivity.
  - intros Hg. right. apply IH. exact Hg.
Qed.

(** The canonical text of a value depends on its content only. *)
Lemma dumps_same_content (v1 : value F) :
  forall v2, distinct_keys v1 -> same_content v1 v2 -> dumps v1 = dumps v2.
Proof.
  induction v1 as [|b|n|x|s|l IH|items IH] using value_induction;
    intros v2 Hwf Hsame; try (simpl in Hsame; subst v2; reflexivity).
  - destruct v2 as [| | | | |l2|]; try contradiction.
    apply same_content_list in Hsame. apply distinct_keys_list in Hwf.
    assert (Hmap : map dumps l = map dumps l2).
    { revert l2 Hsame.
      induction l as [|a rest IHrest]; intros l2 Hsame; inversion Hsame; subst.
      - reflexivity.
      - inversion IH; subst. inversion Hwf; subst.
        cbn [map]. f_equal; auto. }
    simpl. rewrite Hmap. reflexivity.
  - destruct v2 as [| | | | | |items2]; try contradiction.
    apply same_content_dict in Hsame. destruct Hsame as [Hlen Hsame].
    apply distinct_keys_dict in Hwf. destruct Hwf as [Hnd Hwf].
    rewrite !dumps_dict.
    rewrite (sort_items_permutation
               (map (fun kv => (fst kv, dumps (snd kv))) items)
               (map (fun kv => (fst kv, dumps (snd kv))) items2));
      [reflexivity| |rewrite map_map; exact Hnd].
    apply NoDup_Permutation_bis.
    + apply (NoDup_map_inv fst). rewrite map_map. exact Hnd.
    + rewrite !length_map, Hlen. apply le_n.
    + intros kt Hin. apply in_map_iff in Hin.
      destruct Hin as ([k v] & <- & Hin).
      rewrite Forall_forall in IH, Hsame, Hwf.
      destruct (Hsame _ Hin) as (b & Hb & Hs). simpl in Hb, Hs.
      apply in_map_iff. exists (k, b). split; [|apply get_in; exact Hb].
      simpl. f_equal. symmetry. apply (IH _ Hin); [apply (Hwf _ Hin)|exact Hs].
Qed.

Lemma in_get (k : string) (v : value F) (items : dict F) :
  NoDup (keys items) -> In (k, v) items -> get k items = Some v.
Proof.
  unfold keys. induction items as [|[k' v'] rest IH]; [contradiction|].
  simpl. intros Hnd Hin. inversion Hnd as [|? ? Hnotin Hnd']; subst.
  destruct Hin as [E|Hin].
  - injection E as -> ->. rewrite String.eqb_refl. reflexivity.
  - destruct (String.eqb k k') eqn:E; [|apply IH; assumption].
    apply String.eqb_eq in E. subst k'. exfalso. apply Hnotin.
    apply in_map_iff. exists (k, v). split; [reflexivity|assumption].
Qed.

Lemma same_content_refl (v : value F) : distinct_keys v -> same_content v v.
Proof.
  induction v as [|b|n|x|s|l IH|items IH] using value_induction;
    intros Hwf; try reflexivity.
  - apply same_content_list. apply distinct_keys_list in Hwf.
    induction l as [|a rest IHrest]; constructor;
      inversion IH; inversion Hwf; subst; auto.
  - apply same_content_dict. split; [reflexivity|].
    apply distinct_keys_dict in Hwf. destruct Hwf as [Hnd Hwf].
    rewrite Forall_forall in *. intros [k v] Hin.
    exists v. split; [apply in_get; assumption|].
    apply (IH _ Hin), (Hwf _ Hin).
Qed.

(** The same items inserted in another order are the same content. *)
Lemma permuted_same_content (p1 p2 : dict F) :
  distinct_keys (JDict p1) -> Permutation p1 p2 ->
  same_content (JDict p1) (JDict p2).
Proof.
  intros Hwf Hperm. apply same_content_dict.
  apply distinct_keys_dict in Hwf. destruct Hwf as [Hnd Hwf].
  split; [apply Permutation_length; exact Hperm|].
  rewrite Forall_forall in *. intros [k v] Hin.
  exists v. split.
  - apply in_get.
    + eapply Permutation_NoDup; [|exact Hnd].
      apply Permutation_map. exact Hperm.
    + eapply Permutation_in; eassumption.
  - apply same_content_refl. apply (Hwf _ Hin).
Qed.

(** C2: two packet dictionaries with the same content, whatever the order
    in which their keys were inserted, and whatever the order of the keys
    of the dictionaries inside them (the entries of [sensor_readings]),
    have the same canonical JSON text, and [sign_packet] returns the same
    signature for both. *)
Theorem sign_packet_ignores_insertion_order (p1 p2 : dict F) (w : World F) :
  distinct_keys (JDict p1) -> same_content (JDict p1) (JDict p2) ->
  dumps (JDict p1) = dumps (JDict p2) /\
  sign_packet p1 w = sign_packet p2 w.
Proof.
  intros Hwf Hsame.
  assert (E : dumps (JDict p1) = dumps (JDict p2))
    by (apply dumps_same_content; assumption).
  split; [exact E|].
  rewrite !sign_packet_returns. unfold signature_of. rewrite E. reflexivity.
Qed.

End CanonicalFacts.

(** ** Rounding in binary64

    The facts about [SpecFloat]'s rounding that the cumulative total needs:
    adding a positive float to a non-negative one never gives less. *)

Lemma digits2_bounds (p : positive) :
  2 ^ (Z.pos (digits2_pos p) - 1) <= Z.pos p < 2 ^ Z.pos (digits2_pos p).
Proof.
  induction p as [p IH|p IH|]; simpl digits2_pos.
  - rewrite Pos2Z.inj_succ.
    replace (Z.succ (Z.pos (digits2_pos p)) - 1) with (Z.succ (Z.pos (digits2_pos p) - 1)) by lia.
    rewrite !Z.pow_succ_r by lia. lia.
  - rewrite Pos2Z.inj_succ.
    replace (Z.succ (Z.pos (digits2_pos p)) - 1) with (Z.succ (Z.pos (digits2_pos p) - 1)) by lia.
    rewrite !Z.pow_succ_r by lia. lia.
  - simpl. lia.
Qed.

(** The number of binary digits of a non-negative integer. *)
Lemma Zdigits2_bounds (n : Z) :
  0 < n -> 2 ^ (Zdigits2 n - 1) <= n < 2 ^ Zdigits2 n.
Proof.
  destruct n as [|p|p]; try lia. intros _. apply digits2_bounds.
Qed.

Lemma Zdigits2_pos (n : Z) : 0 < n -> 0 < Zdigits2 n.
Proof. destruct n; simpl; lia. Qed.

Lemma pow2_lt_mono_inv (a b : Z) : 0 <= b -> 2 ^ a < 2 ^ b -> a < b.
Proof.
  intros Hb H. destruct (Z_lt_le_dec a b) as [|Hle]; [assumption|].
  exfalso. assert (2 ^ b <= 2 ^ a) by (apply Z.pow_le_mono_r; lia). lia.
Qed.

Lemma Zdigits2_mono (a b : Z) : 0 < a -> a <= b -> Zdigits2 a <= Zdigits2 b.
Proof.
  intros Ha Hab.
  pose proof (Zdigits2_bounds a Ha) as [La Ua].
  pose proof (Zdigits2_bounds b ltac:(lia)) as [Lb Ub].
  pose proof (Zdigits2_pos a Ha). pose proof (Zdigits2_pos b ltac:(lia)).
  assert (2 ^ (Zdigits2 a - 1) < 2 ^ Zdigits2 b) by lia.
  apply pow2_lt_mono_inv in H1; lia.
Qed.

(** Digits are determined by the bounds. *)
Lemma Zdigits2_unique (n d : Z) :
  0 < n -> 0 < d -> 2 ^ (d - 1) <= n < 2 ^ d -> Zdigits2 n = d.
Proof.
  intros Hn Hd [L U].
  pose proof (Zdigits2_bounds n Hn) as [L' U'].
  pose proof (Zdigits2_pos n Hn).
  assert (2 ^ (d - 1) < 2 ^ Zdigits2 n) by lia.
  assert (2 ^ (Zdigits2 n - 1) < 2 ^ d) by lia.
  apply pow2_lt_mono_inv in H0; [|lia].
  apply pow2_lt_mono_inv in H1; lia.
Qed.

Lemma Zdigits2_shift (n k : Z) :
  0 < n -> 0 <= k -> Zdigits2 (n * 2 ^ k) = Zdigits2 n + k.
Proof.
  intros Hn Hk.
  pose proof (Zdigits2_bounds n Hn) as [L U].
  pose proof (Zdigits2_pos n Hn).
  assert (0 < 2 ^ k) by (apply Z.pow_pos_nonneg; lia).
  apply Zdigits2_unique; try nia.
  replace (Zdigits2 n + k - 1) with ((Zdigits2 n - 1) + k) by lia.
  rewrite !Z.pow_add_r by lia. nia.
Qed.

(** Dropping [k] low bits of a number with more than [k] digits. *)
Lemma Zdigits2_div (n k : Z) :
  0 < n -> 0 <= k < Zdigits2 n -> Zdigits2 (n / 2 ^ k) = Zdigits2 n - k.
Proof.
  intros Hn Hk.
  pose proof (Zdigits2_bounds n Hn) as [L U].
  assert (P : 0 < 2 ^ k) by (apply Z.pow_pos_nonneg; lia).
  assert (E1 : 2 ^ (Zdigits2 n - 1) = 2 ^ (Zdigits2 n - k - 1) * 2 ^ k).
  { rewrite <- Z.pow_add_r by lia. f_equal. lia. }
  assert (E2 : 2 ^ Zdigits2 n = 2 ^ (Zdigits2 n - k) * 2 ^ k).
  { rewrite <- Z.pow_add_r by lia. f_equal. lia. }
  assert (Lq : 2 ^ (Zdigits2 n - k - 1) <= n / 2 ^ k).
  { apply Z.div_le_lower_bound; [lia|]. rewrite Z.mul_comm. lia. }
  assert (Uq : n / 2 ^ k < 2 ^ (Zdigits2 n - k)).
  { apply Z.div_lt_upper_bound; [lia|]. rewrite Z.mul_comm. lia. }
  assert (0 < 2 ^ (Zdigits2 n - k - 1)) by (apply Z.pow_pos_nonneg; lia).
  apply Zdigits2_unique; try lia.
Qed.

Lemma shr_1_m (mrs : shr_record) :
  0 <= shr_m mrs -> shr_m (shr_1 mrs) = shr_m mrs / 2.
Proof.
  destruct mrs as [m r s]. simpl. intros Hm.
  destruct m as [|[p|p|]|p]; cbn [shr_m shr_1]; try lia.
  - reflexivity.
  - apply Z.div_unique with (r := 1); lia.
  - apply Z.div_unique with (r := 0); lia.
  - reflexivity.
Qed.

Lemma iter_shr_1_m (p : positive) (mrs : shr_record) :
  0 <= shr_m mrs ->
  shr_m (SpecFloat.iter_pos shr_1 p mrs) = shr_m mrs / 2 ^ Z.pos p.
Proof.
  revert mrs. induction p as [p IH|p IH|]; intros mrs Hm; simpl SpecFloat.iter_pos.
  - assert (H1 : 0 <= shr_m (shr_1 mrs))
      by (rewrite shr_1_m by assumption; apply Z.div_pos; lia).
    assert (H2 : 0 <= shr_m (SpecFloat.iter_pos shr_1 p (shr_1 mrs)))
      by (rewrite IH by assumption; apply Z.div_pos; [lia|apply Z.pow_pos_nonneg; lia]).
    rewrite IH, IH, shr_1_m by assumption.
    assert (P : 0 < 2 ^ Z.pos p) by (apply Z.pow_pos_nonneg; lia).
    rewrite !Z.div_div by lia.
    f_equal.
    assert (E : Z.pos p~1 = 1 + Z.pos p + Z.pos p) by lia.
    rewrite E, !Z.pow_add_r by lia. lia.
  - assert (H2 : 0 <= shr_m (SpecFloat.iter_pos shr_1 p mrs))
      by (rewrite IH by assumption; apply Z.div_pos; [lia|apply Z.pow_pos_nonneg; lia]).
    rewrite IH, IH by assumption.
    assert (P : 0 < 2 ^ Z.pos p) by (apply Z.pow_pos_nonneg; lia).
    rewrite !Z.div_div by lia.
    f_equal.
    assert (E : Z.pos p~0 = Z.pos p + Z.pos p) by lia.
    rewrite E, Z.pow_add_r by lia. reflexivity.
  - apply shr_1_m. assumption.
Qed.

Lemma fexp64_value (e : Z) : SpecFloat.fexp 53 1024 e = Z.max (e - 53) (-1074).
Proof. reflexivity. Qed.

Lemma shr_record_of_loc_m (m : Z) (l : location) :
  shr_m (shr_record_of_loc m l) = m.
Proof. destruct l as [|[]]; reflexivity. Qed.

(** [shr_fexp] moves to the exponent the format asks for, never down, and
    divides the mantissa accordingly. *)
Lemma shr_fexp_spec (m e : Z) (l : location) :
  0 < m ->
  let '(mrs, e') := shr_fexp 53 1024 m e l in
  e' = Z.max e (SpecFloat.fexp 53 1024 (Zdigits2 m + e)) /\
  shr_m mrs = m / 2 ^ (e' - e).
Proof.
  intros Hm. unfold shr_fexp, shr.
  destruct (SpecFloat.fexp 53 1024 (Zdigits2 m + e) - e) as [|p|p] eqn:E.
  - split; [lia|].
    rewrite shr_record_of_loc_m, Z.sub_diag. simpl. symmetry. apply Z.div_1_r.
  - split; [lia|].
    rewrite iter_shr_1_m by (rewrite shr_record_of_loc_m; lia).
    rewrite shr_record_of_loc_m. f_equal. f_equal. lia.
  - split; [lia|].
    rewrite shr_record_of_loc_m, Z.sub_diag. simpl. symmetry. apply Z.div_1_r.
Qed.

Lemma round_nearest_even_bounds (m : Z) (l : location) :
  m <= round_nearest_even m l <= m + 1.
Proof.
  destruct l as [|[]]; simpl; try lia. destruct (Z.even m); lia.
Qed.

Lemma pos_iter_xO (m d : positive) :
  Z.pos (Pos.iter xO m d) = Z.pos m * 2 ^ Z.pos d.
Proof.
  induction d as [|d IH] using Pos.peano_ind.
  - simpl. lia.
  - rewrite Pos.iter_succ, Pos2Z.inj_xO, IH, Pos2Z.inj_succ, Z.pow_succ_r by lia.
    lia.
Qed.

Lemma shl_align_spec (m : positive) (e e' : Z) :
  e' <= e -> Z.pos (fst (shl_align m e e')) = Z.pos m * 2 ^ (e - e').
Proof.
  intros Hle. unfold shl_align.
  destruct (e' - e) as [|d|d] eqn:E; simpl fst.
  - replace (e - e') with 0 by lia. simpl. lia.
  - lia.
  - rewrite pos_iter_xO. f_equal. f_equal. lia.
Qed.

(** Rounding a sum that is at least [mx * 2^ex] gives a float that is at
    least [mx * 2^ex]: a larger exponent, or the same exponent and a mantissa
    that is no smaller, or an infinity. *)
Lemma binary_round_ge (mx : positive) (ex : Z) (sum : positive) (ez : Z) :
  SpecFloat.fexp 53 1024 (Z.pos (digits2_pos mx) + ex) = ex ->
  ez <= ex ->
  Z.pos mx * 2 ^ (ex - ez) <= Z.pos sum ->
  binary_round 53 1024 false sum ez = S754_infinity false \/
  exists m e,
    binary_round 53 1024 false sum ez = S754_finite false m e /\
    (ex < e \/ (ex = e /\ (mx <= m)%positive)).
Proof.
  intros Hcanon Hez Hsum.
  assert (P : 0 < 2 ^ (ex - ez)) by (apply Z.pow_pos_nonneg; lia).
  assert (Hd : Z.pos (digits2_pos mx) + (ex - ez) <= Z.pos (digits2_pos sum)).
  { change (Z.pos (digits2_pos mx)) with (Zdigits2 (Z.pos mx)).
    change (Z.pos (digits2_pos sum)) with (Zdigits2 (Z.pos sum)).
    rewrite <- Zdigits2_shift by lia. apply Zdigits2_mono; lia. }
  rewrite fexp64_value in Hcanon.
  unfold binary_round. rewrite fexp64_value.
  remember (Z.max (Z.pos (digits2_pos sum) + ez - 53) (-1074)) as f1 eqn:Hf1.
  assert (Hf1ex : ex <= f1) by lia.
  assert (Halign : shl_align sum ez f1 = (sum, ez)).
  { unfold shl_align. destruct (f1 - ez) eqn:E; try reflexivity. lia. }
  rewrite Halign. unfold binary_round_aux.
  pose proof (shr_fexp_spec (Z.pos sum) ez loc_Exact ltac:(lia)) as H1.
  destruct (shr_fexp 53 1024 (Z.pos sum) ez loc_Exact) as [mrs1 e1].
  destruct H1 as [He1 Hm1]. rewrite fexp64_value in He1.
  change (Zdigits2 (Z.pos sum)) with (Z.pos (digits2_pos sum)) in He1.
  assert (Hshift : 0 <= e1 - ez < Z.pos (digits2_pos sum))
    by (clear - Hcanon Hez Hd He1; lia).
  assert (He1ex : ex <= e1) by (clear - Hcanon Hez Hd He1; lia).
  assert (Hm1pos : 0 < shr_m mrs1).
  { pose proof (Zdigits2_div (Z.pos sum) (e1 - ez) (Pos2Z.is_pos sum) Hshift)
      as Hm1d.
    rewrite <- Hm1 in Hm1d.
    change (Zdigits2 (Z.pos sum)) with (Z.pos (digits2_pos sum)) in Hm1d.
    assert (Hq : 0 <= shr_m mrs1).
    { rewrite Hm1. apply Z.div_pos; [apply Pos2Z.is_nonneg|].
      apply Z.pow_pos_nonneg; [reflexivity|apply Hshift]. }
    clear - Hm1d Hq Hshift. revert Hm1d Hq. generalize (shr_m mrs1).
    intros [|q|q] Hm1d Hq;
      [change (Zdigits2 0) with 0 in Hm1d; lia|lia|lia]. }
  assert (Hm1ge : e1 = ex -> Z.pos mx <= shr_m mrs1).
  { intros ->. rewrite Hm1.
    apply Z.div_le_lower_bound; [exact P|]. rewrite Z.mul_comm. exact Hsum. }
  clear Hm1 Hsum P Halign.
  pose proof (round_nearest_even_bounds (shr_m mrs1) (loc_of_shr_record mrs1))
    as Hround.
  remember (round_nearest_even (shr_m mrs1) (loc_of_shr_record mrs1)) as m2
    eqn:Em2.
  clear Em2.
  assert (Hm2pos : 0 < m2) by lia.
  pose proof (shr_fexp_spec m2 e1 loc_Exact Hm2pos) as H3.
  destruct (shr_fexp 53 1024 m2 e1 loc_Exact) as [mrs3 e3].
  destruct H3 as [He3 Hm3]. rewrite fexp64_value in He3.
  assert (He1min : -1074 <= e1) by lia.
  assert (Hm3pos : 0 < shr_m mrs3).
  { destruct (Z.eq_dec e3 e1) as [Heq|Hne].
    - rewrite Hm3, Heq, Z.sub_diag. simpl. rewrite Z.div_1_r. exact Hm2pos.
    - assert (Hk : 0 <= e3 - e1 < Zdigits2 m2) by (clear - He3 Hne He1min; lia).
      pose proof (Zdigits2_div m2 (e3 - e1) Hm2pos Hk) as Hdiv.
      rewrite <- Hm3 in Hdiv.
      assert (Hq : 0 <= shr_m mrs3).
      { rewrite Hm3. apply Z.div_pos; [lia|].
        apply Z.pow_pos_nonneg; [reflexivity|apply Hk]. }
      clear - Hdiv Hq Hk. revert Hdiv Hq. generalize (shr_m mrs3).
      intros [|q|q] Hdiv Hq;
        [change (Zdigits2 0) with 0 in Hdiv; lia|lia|lia]. }
  assert (Hm3eq : e3 = e1 -> shr_m mrs3 = m2).
  { intros Heq. rewrite Hm3, Heq, Z.sub_diag. simpl. apply Z.div_1_r. }
  clear Hm3.
  destruct (shr_m mrs3) as [|m|m] eqn:Em3; try lia.
  destruct (e3 <=? 1024 - 53); [|left; reflexivity].
  right. exists m, e3. split; [reflexivity|].
  destruct (Z.eq_dec e3 ex) as [Heq|Hne]; [right|left; lia].
  split; [lia|].
  assert (Hee : e3 = e1) by lia.
  specialize (Hm3eq Hee). specialize (Hm1ge ltac:(lia)). lia.
Qed.

(** Adding a positive float to a non-negative one does not go down, and the
    sum is again non-negative. *)
Lemma SFadd_nonneg_pos (x y : spec_float) :
  SpecFloat.valid_binary 53 1024 x = true ->
  SFleb (S754_zero false) x = true ->
  SFltb (S754_zero false) y = true ->
  SFleb x (SpecFloat.SFadd 53 1024 x y) = true /\
  SFleb (S754_zero false) (SpecFloat.SFadd 53 1024 x y) = true.
Proof.
  intros Hvalid Hx Hy.
  destruct y as [sy|sy| |sy my ey]; try discriminate;
    destruct sy; try discriminate;
    destruct x as [sx|sx| |sx mx ex]; try discriminate;
    destruct sx; try discriminate;
    try (split; reflexivity).
    unfold SpecFloat.valid_binary, bounded, canonical_mantissa in Hvalid.
    apply andb_true_iff in Hvalid. destruct Hvalid as [Hcanon _].
    apply Z.eqb_eq in Hcanon.
    unfold SFadd, cond_Zopp.
    set (ez := Z.min ex ey).
    assert (Hez : ez <= ex) by (unfold ez; lia).
    pose proof (shl_align_spec mx ex ez Hez) as Ha.
    remember (fst (shl_align mx ex ez)) as a eqn:Ea.
    remember (fst (shl_align my ey ez)) as b eqn:Eb.
    change (Z.pos a + Z.pos b) with (Z.pos (a + b)).
    unfold binary_normalize.
    assert (Hsum : Z.pos mx * 2 ^ (ex - ez) <= Z.pos (a + b)) by lia.
    destruct (binary_round_ge mx ex (a + b) ez Hcanon Hez Hsum)
      as [->|(m & e & -> & Hcmp)].
    + split; reflexivity.
    + split; [|reflexivity].
      unfold SFleb, SFcompare.
      destruct Hcmp as [Hlt|[<- Hle]].
      * apply Z.compare_lt_iff in Hlt. rewrite Hlt. reflexivity.
      * rewrite Z.compare_refl.
        change (Pos.compare_cont Eq mx m) with (Pos.compare mx m).
        destruct (Pos.compare mx m) eqn:C; try reflexivity.
        apply Pos.compare_gt_iff in C. lia.
Qed.

(** The order of floats is transitive. *)
Lemma SFleb_trans (a b c : spec_float) :
  SFleb a b = true -> SFleb b c = true -> SFleb a c = true.
Proof.
  unfold SFleb, SFcompare.
  destruct a as [sa|sa| |sa ma ea], b as [sb|sb| |sb mb eb],
           c as [sc|sc| |sc mc ec];
    try discriminate; try reflexivity;
    try (destruct sa; try discriminate; try reflexivity);
    try (destruct sb; try discriminate; try reflexivity);
    try (destruct sc; try discriminate; try reflexivity).
  all: change (Pos.compare_cont Eq) with Pos.compare.
  all: destruct (Z.compare_spec ea eb), (Z.compare_spec eb ec),
         (Z.compare_spec ea ec); subst; try discriminate; try reflexivity;
         try lia.
  all: destruct (Pos.compare_spec ma mb), (Pos.compare_spec mb mc),
         (Pos.compare_spec ma mc); subst; simpl; try discriminate;
         try reflexivity; try lia.
Qed.

(** ** Energy in binary64 arithmetic *)

Section Binary64Facts.
Import IEEE.
Local Open Scope float_scope.
Implicit Types (x y : float) (w : World float) (env : CycleEnv float).

Lemma binary64_zero : of_int 0 = 0.
Proof. reflexivity. Qed.

Lemma binary64_3600 :
  Prim2SF (of_int 3600) = S754_finite false 7916483719987200 (-41).
Proof. reflexivity. Qed.

Lemma binary64_pymax_zero x :
  pymax (of_int 0) x = if 0 <? x then x else 0.
Proof. reflexivity. Qed.

(** [x < y] implies [x <= y]. *)
Lemma ltb_leb x y : (x <? y) = true -> (x <=? y) = true.
Proof.
  rewrite FloatAxioms.ltb_spec, FloatAxioms.leb_spec. unfold SFltb, SFleb.
  destruct (SFcompare (Prim2SF x) (Prim2SF y)) as [[]|]; congruence.
Qed.

(** [x <= 0] excludes [0 < x]. *)
Lemma leb_zero_not_gt x : (x <=? 0) = true -> (0 <? x) = false.
Proof.
  rewrite FloatAxioms.ltb_spec, FloatAxioms.leb_spec. unfold SFltb, SFleb.
  change (Prim2SF 0) with (S754_zero false).
  destruct (Prim2SF x) as [s|s| |s m e]; simpl; try reflexivity;
    destruct s; simpl; congruence.
Qed.

(** The floats equal to zero are the two zeros. *)
Lemma eqb_zero x : (x =? 0) = true -> exists s, Prim2SF x = S754_zero s.
Proof.
  rewrite FloatAxioms.eqb_spec. unfold SFeqb.
  change (Prim2SF 0) with (S754_zero false).
  destruct (Prim2SF x) as [s|s| |s m e]; simpl; try discriminate.
  - intros _. exists s. reflexivity.
  - destruct s; discriminate.
  - destruct s; discriminate.
Qed.

(** A product with a zero, divided by 3600, is a zero or a NaN: never
    positive. *)
Lemma zero_interval_energy x y :
  (y =? 0) = true -> (0 <? (x * y) / of_int 3600) = false.
Proof.
  intros Hy. destruct (eqb_zero _ Hy) as [s Es].
  rewrite FloatAxioms.ltb_spec, FloatAxioms.div_spec, FloatAxioms.mul_spec, Es, binary64_3600.
  change (Prim2SF 0) with (S754_zero false).
  destruct (Prim2SF x) as [sx|sx| |sx mx ex]; reflexivity.
Qed.

(** C5: for every reading and every [time_delta], negative ones included,
    [calculate_energy] returns a value [>= 0]; with [time_delta = 0] it
    returns exactly [0.0]. *)
Theorem calculate_energy_is_clamped (reading : SensorReading float) w :
  (forall time_delta,
      exists energy_wh,
        calculate_energy reading time_delta w = (Ok energy_wh, w, nil) /\
        (0 <=? energy_wh) = true) /\
  (forall time_delta,
      (time_delta =? 0) = true ->
      calculate_energy reading time_delta w = (Ok 0, w, nil)).
Proof.
  split; intros time_delta.
  - eexists. split; [apply calculate_energy_returns|].
    rewrite binary64_pymax_zero.
    destruct (0 <? _) eqn:Hpos; [apply ltb_leb; exact Hpos|reflexivity].
  - intros Hzero. rewrite calculate_energy_returns, binary64_pymax_zero.
    change (@mul float binary64) with PrimFloat.mul.
    change (@div float binary64) with PrimFloat.div.
    rewrite (zero_interval_energy _ _ Hzero). reflexivity.
Qed.

(** C8: in an iteration whose increment is [<= 0] no packet is built and
    [requests.post] is not called (neither counter moves), while the
    reading is appended to the rolling buffer and [last_reading_time]
    becomes the iteration's current time. *)
Theorem skip_cycle_keeps_reading_and_clock env w :
  (increment env w <=? 0) = true ->
  (forall ev, In ev (events (cycle env w)) -> is_packet_event ev = false) /\
  readings_sent (this (world (cycle env w))) = readings_sent (this w) /\
  readings_failed (this (world (cycle env w))) = readings_failed (this w) /\
  reading_buffer (world (cycle env w))
    = rolled (reading_buffer w) (env_reading env) /\
  (exists older,
      reading_buffer (world (cycle env w)) = (older ++ env_reading env :: nil)%list) /\
  last_reading_time (this (world (cycle env w))) = env_current_time env.
Proof.
  intros Hle. apply leb_zero_not_gt in Hle.
  change (0 <? increment env w) with (increment env w >? of_int 0)%py in Hle.
  destruct (cycle_skip_effects env w Hle)
    as (Hev & Hsent & Hfailed & _ & Hbuf & Hclock).
  repeat split; try assumption.
  rewrite Hbuf. apply rolled_ends_with.
Qed.

(** In binary64: a total that is [>= 0] stays [>= 0] and does not decrease
    when a positive increment is added. *)
Lemma float_add_nonneg_pos (c e : float) :
  (0 <=? c) = true -> (0 <? e) = true ->
  (c <=? c + e) = true /\ (0 <=? c + e) = true.
Proof.
  rewrite !FloatAxioms.leb_spec, FloatAxioms.ltb_spec, FloatAxioms.add_spec.
  change (Prim2SF 0) with (S754_zero false).
  intros Hc He. apply SFadd_nonneg_pos; try assumption.
  apply FloatAxioms.Prim2SF_valid.
Qed.

Lemma float_leb_trans (a b c : float) :
  (a <=? b) = true -> (b <=? c) = true -> (a <=? c) = true.
Proof.
  rewrite !FloatAxioms.leb_spec. apply SFleb_trans.
Qed.

(** A float that is [>= 0] is not a NaN: it is [<=] itself. *)
Lemma float_leb_refl_nonneg (c : float) :
  (0 <=? c) = true -> (c <=? c) = true.
Proof.
  rewrite !FloatAxioms.leb_spec. unfold SFleb, SFcompare.
  change (Prim2SF 0) with (S754_zero false).
  destruct (Prim2SF c) as [s|s| |s m e]; try discriminate; try reflexivity.
  - destruct s; reflexivity.
  - destruct s; try discriminate.
    rewrite Z.compare_refl.
    change (Pos.compare_cont Eq m m) with (Pos.compare m m).
    rewrite Pos.compare_refl. reflexivity.
Qed.

Lemma binary64_cycle_monotone env w :
  (0 <=? cumulative_energy_wh (this w)) = true ->
  (cumulative_energy_wh (this w)
   <=? cumulative_energy_wh (this (world (cycle env w)))) = true /\
  (0 <=? cumulative_energy_wh (this (world (cycle env w)))) = true.
Proof.
  intros Hc. rewrite cycle_cumulative.
  change (increment env w >? of_int 0)%py with (0 <? increment env w).
  destruct (0 <? increment env w) eqn:Hpos.
  - apply float_add_nonneg_pos; assumption.
  - split; [apply float_leb_refl_nonneg|]; assumption.
Qed.

Lemma binary64_run_loop_monotone (envs : list (CycleEnv float)) w :
  (0 <=? cumulative_energy_wh (this w)) = true ->
  (cumulative_energy_wh (this w)
   <=? cumulative_energy_wh (this (world (run_loop envs w)))) = true /\
  (0 <=? cumulative_energy_wh (this (world (run_loop envs w)))) = true.
Proof.
  revert w. induction envs as [|env rest IH]; intros w Hc.
  - split; [apply float_leb_refl_nonneg|]; assumption.
  - rewrite run_loop_step.
    destruct (binary64_cycle_monotone env w Hc) as [Hmono Hinv].
    assert (Hrest :
      (cumulative_energy_wh (this w)
       <=? cumulative_energy_wh
             (this (world (run_loop rest (world (cycle env w)))))) = true /\
      (0 <=? cumulative_energy_wh
               (this (world (run_loop rest (world (cycle env w)))))) = true).
    { destruct (IH (world (cycle env w)) Hinv) as [IH1 IH2].
      split; [|exact IH2]. eapply float_leb_trans; eassumption. }
    destruct (result (cycle env w)) as [u|e]; [exact Hrest|].
    destruct (is_Exception e); [exact Hrest|]. split; assumption.
Qed.

Lemma binary64_run_loop_cumulative (envs : list (CycleEnv float)) w :
  cumulative_energy_wh (this (world (run_loop envs w))) =
  fold_left PrimFloat.add
    (filter (fun e => 0 <? e) (increments envs w))
    (cumulative_energy_wh (this w)).
Proof. rewrite run_loop_cumulative. reflexivity. Qed.

End Binary64Facts.

(** ** The cumulative total over a run, with rounding and without *)

Section RunTotals.
Import IEEE.
Variable repr : Q -> string.
Local Open Scope Q_scope.

#[local] Instance exact : PyFloat Q := Exact.rationals repr.

Implicit Types (w : World Q) (env : CycleEnv Q).

Definition total (l : list Q) : Q := fold_right Qplus 0 l.

Lemma exact_gt_zero (x : Q) :
  (x >? of_int 0)%py = true <-> 0 < x.
Proof.
  simpl. rewrite negb_true_iff. unfold inject_Z. split.
  - intros Hn. apply Qnot_le_lt. intros Hle.
    apply Qle_bool_iff in Hle. change (0 # 1) with 0 in Hn. congruence.
  - intros Hlt. destruct (Qle_bool x (0 # 1)) eqn:E; [|reflexivity].
    apply Qle_bool_iff in E. exfalso. apply (Qlt_not_le _ _ Hlt). exact E.
Qed.

Lemma exact_increment_sign env w :
  0 <= increment env w /\
  ((increment env w >? of_int 0)%py = false -> increment env w == 0).
Proof.
  rewrite increment_value. unfold pymax.
  set (x := (_ / _)%py).
  destruct (x >? of_int 0)%py eqn:Hgt.
  - split; [|intros Hn; congruence].
    apply Qlt_le_weak. apply exact_gt_zero. exact Hgt.
  - split; [apply Qle_refl|]. intros _. reflexivity.
Qed.

Lemma exact_cycle_total env w :
  cumulative_energy_wh (this w)
    <= cumulative_energy_wh (this (world (cycle env w))) /\
  cumulative_energy_wh (this (world (cycle env w)))
    == cumulative_energy_wh (this w) + increment env w.
Proof.
  rewrite cycle_cumulative.
  destruct (exact_increment_sign env w) as [Hpos Hzero].
  destruct (increment env w >? of_int 0)%py eqn:Hgt.
  - simpl. split; [lra|reflexivity].
  - specialize (Hzero eq_refl). split; [apply Qle_refl|lra].
Qed.

Lemma exact_run_loop_total (envs : list (CycleEnv Q)) w :
  cumulative_energy_wh (this w)
    <= cumulative_energy_wh (this (world (run_loop envs w))) /\
  cumulative_energy_wh (this (world (run_loop envs w)))
    == cumulative_energy_wh (this w) + total (increments envs w) /\
  Forall (fun e => 0 <= e) (increments envs w).
Proof.
  revert w. induction envs as [|env rest IH]; intros w.
  - simpl. unfold world. simpl. repeat split; [apply Qle_refl|lra|constructor].
  - rewrite run_loop_step. simpl increments.
    destruct (exact_cycle_total env w) as [Hmono Hsum].
    destruct (exact_increment_sign env w) as [Hpos _].
    destruct (result (cycle env w)) as [u|e].
    + destruct (IH (world (cycle env w))) as (IH1 & IH2 & IH3).
      simpl total. repeat split; [lra|lra|constructor; assumption].
    + destruct (is_Exception e).
      * destruct (IH (world (cycle env w))) as (IH1 & IH2 & IH3).
        simpl total. repeat split; [lra|lra|constructor; assumption].
      * simpl total. repeat split; [lra|lra|constructor; [assumption|constructor]].
Qed.

(** C6: the cumulative total never decreases across an iteration of the
    loop, nor across a run, and after the iterations of a run it is the total
    before plus the sum of the increments [calculate_energy] returned in
    them, all of which are non-negative.  In binary64, as Python computes,
    the order is the floats' order and the sum is the positive increments
    added in order, each addition rounded; in exact arithmetic (rounding left
    out) the sum is the exact sum.  A reader fresh from [__init__] starts at
    zero. *)
Theorem cumulative_energy_is_monotone_sum :
  (forall (envs : list (CycleEnv float)) (env : CycleEnv float)
          (w : World float),
      (0 <=? cumulative_energy_wh (this w))%float = true ->
      (cumulative_energy_wh (this w)
       <=? cumulative_energy_wh (this (world (cycle env w))))%float = true /\
      (cumulative_energy_wh (this w)
       <=? cumulative_energy_wh (this (world (run_loop envs w))))%float = true /\
      (0 <=? cumulative_energy_wh (this (world (run_loop envs w))))%float
        = true /\
      cumulative_energy_wh (this (world (run_loop envs w))) =
      fold_left PrimFloat.add
        (filter (fun e => (0 <? e)%float) (increments envs w))
        (cumulative_energy_wh (this w))) /\
  (forall cfg now (self : SmartMeterReader float),
      init cfg now = Ok self ->
      (0 <=? cumulative_energy_wh self)%float = true) /\
  (forall (envs : list (CycleEnv Q)) (env : CycleEnv Q) (w : World Q),
      cumulative_energy_wh (this w)
        <= cumulative_energy_wh (this (world (cycle env w))) /\
      cumulative_energy_wh (this w)
        <= cumulative_energy_wh (this (world (run_loop envs w))) /\
      cumulative_energy_wh (this (world (run_loop envs w)))
        == cumulative_energy_wh (this w) + total (increments envs w) /\
      Forall (fun e => 0 <= e) (increments envs w)) /\
  (forall cfg now (self : SmartMeterReader Q) buffer envs,
      init cfg now = Ok self ->
      cumulative_energy_wh
        (this (world (run envs {| this := self; reading_buffer := buffer |})))
        == total (increments envs {| this := self; reading_buffer := nil |})).
Proof.
  split; [|split; [|split]].
  - intros envs env w Hc.
    destruct (binary64_cycle_monotone env w Hc) as [Hcycle _].
    destruct (binary64_run_loop_monotone envs w Hc) as [Hrun Hinv].
    repeat split; try assumption.
    apply binary64_run_loop_cumulative.
  - intros cfg now self Hinit.
    rewrite (init_cumulative cfg now self Hinit). reflexivity.
  - intros envs env w.
    destruct (exact_cycle_total env w) as [Hcycle _].
    destruct (exact_run_loop_total envs w) as (Hrun & Hsum & Hpos).
    repeat split; assumption.
  - intros cfg now self buffer envs Hinit.
    rewrite run_from_empty_buffer.
    destruct (exact_run_loop_total envs {| this := self; reading_buffer := nil |})
      as (_ & Hsum & _).
    rewrite Hsum. simpl.
    rewrite (init_cumulative cfg now self Hinit).
    change (@of_int Q exact 0) with 0. lra.
Qed.

End RunTotals.

(** ** Verifying a packet's signature *)

Section SignatureFacts.
Context {F : Type} `{PyFloat F}.
Import Json.
Local Open Scope string_scope.

(** The check the specification asks of a packet: its [signature] is the
    signature of the packet's own canonical encoding with only the
    [signature] field left out. *)
Definition signature_verifies (self : SmartMeterReader F) (packet : dict F)
  : bool :=
  match get "signature" packet with
  | Some (JStr s) =>
      String.eqb s (signature_of (private_key self) (remove "signature" packet))
  | _ => false
  end.

(** X1: What [create_poe_packet] signs: the packet without [signature] and
    without [meter_id]. *)
Lemma signature_covers_packet_without_meter_id (now energy_wh : F)
    (readings : list (SensorReading F)) (w : World F) (packet : dict F) :
  result (create_poe_packet now energy_wh readings w) = Ok packet ->
  signature_verifies (this w) (remove "meter_id" packet) = true /\
  get "meter_id" packet = Some (JStr (meter_id (this w))).
Proof.
  intros Hp.
  destruct (create_poe_packet_cases now energy_wh readings w)
    as [[e E]|(dv & st & en & cu & _ & _ & _ & E)];
    cbv zeta in E; rewrite E in Hp; unfold result in Hp; simpl in Hp;
    [discriminate|].
  injection Hp as <-. split; [|reflexivity].
  unfold signature_verifies. simpl. apply String.eqb_refl.
Qed.

End SignatureFacts.

(** ** The loop as a whole *)

Section LoopFacts.
Context {F : Type} `{PyFloat F}.
Import Json.
Local Open Scope string_scope.
Local Open Scope Z_scope.
Implicit Types (w : World F) (env : CycleEnv F) (packet : dict F)
  (self : SmartMeterReader F).

(** The identifier [generate_device_id] computes for a reader. *)
Definition device_id_of self : string :=
  Sha256.hexdigest
    (PyStr.encode
       (meter_id self ++ ":"
          ++ get_default (cfg_manufacturer (config self)) "unknown" ++ ":"
          ++ get_default (cfg_serial_number (config self)) "0000")).

(** The attributes [__init__] sets and no method assigns again. *)
Definition same_identity self self' : Prop :=
  config self' = config self /\
  meter_id self' = meter_id self /\
  oracle_url self' = oracle_url self /\
  private_key self' = private_key self /\
  reading_interval self' = reading_interval self.

(** The iterations the loop runs: it stops at an interrupt. *)
Fixpoint iterations (envs : list (CycleEnv F)) w : list (CycleEnv F) :=
  match envs with
  | [] => []
  | env :: rest =>
      env ::
        match result (cycle env w) with
        | Ok _ => iterations rest (world (cycle env w))
        | Raise e =>
            if is_Exception e then iterations rest (world (cycle env w))
            else []
        end
  end%list.

(** The last [n] elements of a list. *)
Definition last_n {A} (n : nat) (l : list A) : list A :=
  skipn (List.length l - n) l.

(** The packet events of a run pair up: each packet built is followed by
    one request, to [url], with that packet as its body. *)
Fixpoint posted_once (url : string) (evs : list (Event F)) : Prop :=
  match evs with
  | [] => True
  | EvPacket packet :: EvPost url' body :: rest =>
      url' = url /\ body = packet /\ posted_once url rest
  | _ => False
  end.

Definition packets_built (evs : list (Event F)) : Z :=
  Z.of_nat (List.length
              (filter (fun ev => match ev with EvPacket _ => true | _ => false end)
                 evs)).

Lemma same_identity_refl self : same_identity self self.
Proof. repeat split. Qed.

Lemma same_identity_trans self1 self2 self3 :
  same_identity self1 self2 -> same_identity self2 self3 ->
  same_identity self1 self3.
Proof.
  unfold same_identity. intros (A1 & A2 & A3 & A4 & A5) (B1 & B2 & B3 & B4 & B5).
  repeat split; congruence.
Qed.

Lemma send_to_oracle_identity (outcome : PostOutcome) packet w :
  same_identity (this w) (this (world (send_to_oracle outcome packet w))).
Proof.
  rewrite send_to_oracle_cases.
  destruct (get "energy_wh" packet); [destruct outcome; [case_if| | |]|];
    repeat split.
Qed.

Lemma generate_device_id_value w :
  generate_device_id w = (Ok (device_id_of (this w)), w, []).
Proof. reflexivity. Qed.

(** A packet [create_poe_packet] returns, field by field. *)
Lemma create_poe_packet_built (now energy_wh : F)
    (readings : list (SensorReading F)) w packet :
  result (create_poe_packet now energy_wh readings w) = Ok packet ->
  exists stamp energy cumulative,
    to_int (now * of_int 1000)%py = Ok stamp /\
    to_int energy_wh = Ok energy /\
    to_int (cumulative_energy_wh (this w)) = Ok cumulative /\
    let signed :=
      [ ("device_id", JStr (device_id_of (this w)));
        ("timestamp", JInt stamp);
        ("energy_wh", JInt energy);
        ("cumulative_energy", JInt cumulative);
        ("sensor_readings", JList (map (@JDict F) (map asdict_reading readings)));
        ("firmware_version", JStr "1.0.0");
        ("protocol_version", JStr "poe-v1") ] in
    packet =
    (signed ++
       [("signature", JStr (signature_of (private_key (this w)) signed));
        ("meter_id", JStr (meter_id (this w)))])%list.
Proof.
  unfold result, create_poe_packet, bind, lift.
  rewrite generate_device_id_value.
  destruct (to_int (now * of_int 1000)%py) as [stamp|e] eqn:E1;
    [|simpl; intros X; discriminate X].
  destruct (to_int energy_wh) as [energy|e] eqn:E2;
    [|simpl; intros X; discriminate X].
  unfold ret, get_self. cbv beta iota.
  destruct (to_int (cumulative_energy_wh (this w))) as [cumulative|e] eqn:E3;
    [|simpl; intros X; discriminate X].
  cbv beta iota. rewrite sign_packet_returns. simpl.
  intros E. injection E as <-.
  exists stamp, energy, cumulative. repeat split.
Qed.


Lemma pause_packet_events env self :
  filter is_packet_event (snd (pause env self)) = [].
Proof. unfold pause. case_if; reflexivity. Qed.

(** The reader after [send_to_oracle] has counted the packet. *)
Definition counted (ok : bool) self : SmartMeterReader F :=
  if ok then with_readings_sent (readings_sent self + 1) self
  else with_readings_failed (readings_failed self + 1) self.

(** The four ways through an iteration: the increment is not positive; it
    is positive and [create_poe_packet] raises; the packet is built, posted
    and counted; the packet is built and the request is interrupted. *)
Lemma cycle_shapes env w :
  let buffer := rolled (reading_buffer w) (env_reading env) in
  let charged :=
    with_cumulative_energy_wh
      (cumulative_energy_wh (this w) + increment env w)%py (this w) in
  let w1 := {| this := charged; reading_buffer := buffer |} in
  let url := oracle_url (this w) ++ "/submit-poe" in
  let built := create_poe_packet (env_packet_time env) (increment env w)
                 buffer w1 in
  ((increment env w >? of_int 0)%py = false /\
   let self := with_last_reading_time (env_current_time env) (this w) in
   cycle env w =
   (fst (pause env self), {| this := self; reading_buffer := buffer |},
    snd (pause env self)))
  \/
  ((increment env w >? of_int 0)%py = true /\
   exists e, result built = Raise e /\ cycle env w = (Raise e, w1, []))
  \/
  ((increment env w >? of_int 0)%py = true /\
   exists packet ok,
     result built = Ok packet /\
     env_post env <> Interrupted /\
     let self := with_last_reading_time (env_current_time env)
                   (counted ok charged) in
     cycle env w =
     (fst (pause env self), {| this := self; reading_buffer := buffer |},
      EvPacket packet :: EvPost url packet :: snd (pause env self)))
  \/
  ((increment env w >? of_int 0)%py = true /\
   exists packet,
     result built = Ok packet /\
     env_post env = Interrupted /\
     cycle env w =
     (Raise KeyboardInterrupt, w1, [EvPacket packet; EvPost url packet])).
Proof.
  cbv zeta. destruct (increment env w >? of_int 0)%py eqn:Hgt.
  - right. pose proof (cycle_builds env w Hgt) as Hc. cbv zeta in Hc.
    match type of Hc with
    | match ?c with _ => _ end => destruct c as [[[packet|e] w2] ev2] eqn:Hp
    end.
    + right.
      assert (Hb : result (create_poe_packet (env_packet_time env)
                     (increment env w)
                     (rolled (reading_buffer w) (env_reading env))
                     {| this := with_cumulative_energy_wh
                          (cumulative_energy_wh (this w) + increment env w)%py
                          (this w);
                        reading_buffer :=
                          rolled (reading_buffer w) (env_reading env) |})
                   = Ok packet) by (rewrite Hp; reflexivity).
      apply create_poe_packet_built in Hb.
      destruct Hb as (st & en & cu & _ & _ & _ & Hb). cbv zeta in Hb.
      assert (Hkey : get "energy_wh" packet <> None)
        by (rewrite Hb; simpl; discriminate).
      rewrite send_to_oracle_cases in Hc.
      destruct (get "energy_wh" packet) as [v|]; [|congruence].
      cbv zeta in Hc.
      destruct (env_post env) as [status text| | |];
        [destruct (status =? 200)| | |]; unfold result, world, events in Hc;
        simpl in Hc.
      * left. split; [reflexivity|]. exists packet, true.
        split; [reflexivity|]. split; [discriminate|exact Hc].
      * left. split; [reflexivity|]. exists packet, false.
        split; [reflexivity|]. split; [discriminate|exact Hc].
      * left. split; [reflexivity|]. exists packet, false.
        split; [reflexivity|]. split; [discriminate|exact Hc].
      * left. split; [reflexivity|]. exists packet, false.
        split; [reflexivity|]. split; [discriminate|exact Hc].
      * right. split; [reflexivity|]. exists packet. repeat split. exact Hc.
    + left. split; [reflexivity|]. exists e. split; [reflexivity|exact Hc].
  - left. split; [reflexivity|]. apply (cycle_skips env w Hgt).
Qed.

End LoopFacts.

Ltac cycle_cases env w :=
  let Hgt := fresh "Hgt" in
  let Hc := fresh "Hc" in
  let Hb := fresh "Hb" in
  let Hpost := fresh "Hpost" in
  let e := fresh "e" in
  let packet := fresh "built" in
  let ok := fresh "ok" in
  destruct (cycle_shapes env w)
    as [(Hgt & Hc)
       |[(Hgt & e & Hb & Hc)
        |[(Hgt & packet & ok & Hb & Hpost & Hc)
         |(Hgt & packet & Hb & Hpost & Hc)]]];
  cbv zeta in Hc.

Section RunFacts.
Context {F : Type} `{PyFloat F}.
Import Json.
Local Open Scope string_scope.
Local Open Scope Z_scope.
Implicit Types (w : World F) (env : CycleEnv F) (packet : dict F)
  (self : SmartMeterReader F).

(** Whatever an iteration does next, the reading is in the buffer, and the
    buffer has lost its oldest reading if it had grown past six. *)
Lemma cycle_buffer env w :
  reading_buffer (world (cycle env w))
  = rolled (reading_buffer w) (env_reading env).
Proof. cycle_cases env w; rewrite Hc; reflexivity. Qed.

Lemma cycle_identity env w :
  same_identity (this w) (this (world (cycle env w))).
Proof.
  cycle_cases env w; rewrite Hc; unfold world; simpl; try (repeat split; fail).
  destruct ok; repeat split.
Qed.


(** *** From one iteration to the run *)

Lemma run_loop_unfold env (rest : list (CycleEnv F)) w :
  run_loop (env :: rest) w =
  match result (cycle env w) with
  | Ok _ =>
      (result (run_loop rest (world (cycle env w))),
       world (run_loop rest (world (cycle env w))),
       events (cycle env w) ++ events (run_loop rest (world (cycle env w))))
  | Raise e =>
      if is_Exception e then
        (result (run_loop rest (world (cycle env w))),
         world (run_loop rest (world (cycle env w))),
         events (cycle env w)
           ++ EvCooldown :: events (run_loop rest (world (cycle env w))))
      else (Ok tt, world (cycle env w), events (cycle env w))
  end%list.
Proof.
  simpl. destruct (cycle env w) as [[[u|e] w1] ev1]; unfold result, world, events;
    simpl.
  - destruct (run_loop rest w1) as [[r w2] ev2]. reflexivity.
  - destruct (is_Exception e); [|reflexivity].
    destruct (run_loop rest w1) as [[r w2] ev2]. reflexivity.
Qed.

Lemma packets_built_app (evs evs' : list (Event F)) :
  packets_built (evs ++ evs') = packets_built evs + packets_built evs'.
Proof.
  unfold packets_built. rewrite filter_app, length_app. lia.
Qed.

Lemma packets_built_filter (evs : list (Event F)) :
  packets_built (filter is_packet_event evs) = packets_built evs.
Proof.
  unfold packets_built. induction evs as [|ev evs IH]; [reflexivity|].
  destruct ev; simpl in *; lia.
Qed.

Lemma run_loop_identity (envs : list (CycleEnv F)) w :
  same_identity (this w) (this (world (run_loop envs w))).
Proof.
  revert w. induction envs as [|env rest IH]; intros w;
    [apply same_identity_refl|].
  rewrite run_loop_step.
  pose proof (cycle_identity env w) as Hc.
  pose proof (IH (world (cycle env w))) as Hr.
  destruct (result (cycle env w)) as [u|e]; [|destruct (is_Exception e)];
    try exact Hc; eapply same_identity_trans; eassumption.
Qed.

(** What an iteration posts and counts: nothing; or one packet, posted once
    and counted once; or, when the request is interrupted, one packet,
    posted once and not counted, and the iteration ends in the
    interrupt. *)
Lemma cycle_packet_events env w :
  let w' := world (cycle env w) in
  let url := oracle_url (this w) ++ "/submit-poe" in
  (filter is_packet_event (events (cycle env w)) = [] /\
   readings_sent (this w') = readings_sent (this w) /\
   readings_failed (this w') = readings_failed (this w))
  \/
  (exists packet ok,
      filter is_packet_event (events (cycle env w))
      = [EvPacket packet; EvPost url packet] /\
      readings_sent (this w')
      = readings_sent (this w) + (if ok : bool then 1 else 0) /\
      readings_failed (this w')
      = readings_failed (this w) + (if ok then 0 else 1))
  \/
  (exists packet,
      filter is_packet_event (events (cycle env w))
      = [EvPacket packet; EvPost url packet] /\
      readings_sent (this w') = readings_sent (this w) /\
      readings_failed (this w') = readings_failed (this w) /\
      result (cycle env w) = Raise KeyboardInterrupt /\
      env_post env = Interrupted).
Proof.
  cbv zeta. cycle_cases env w; rewrite Hc; unfold world, events, result; simpl.
  - left. rewrite pause_packet_events. repeat split.
  - left. repeat split.
  - right. left. exists built, ok. rewrite pause_packet_events.
    destruct ok; simpl; repeat split; lia.
  - right. right. exists built. repeat split. exact Hpost.
Qed.

(** The loop after its first iteration: it goes on with the rest, or it
    stops there, which takes an exception that is not an [Exception]. *)
Lemma run_loop_split env (rest : list (CycleEnv F)) w :
  let next := run_loop rest (world (cycle env w)) in
  (world (run_loop (env :: rest) w) = world next /\
   filter is_packet_event (events (run_loop (env :: rest) w))
   = (filter is_packet_event (events (cycle env w))
        ++ filter is_packet_event (events next))%list /\
   result (cycle env w) <> Raise KeyboardInterrupt)
  \/
  (world (run_loop (env :: rest) w) = world (cycle env w) /\
   filter is_packet_event (events (run_loop (env :: rest) w))
   = filter is_packet_event (events (cycle env w)) /\
   exists e, result (cycle env w) = Raise e /\ is_Exception e = false).
Proof.
  cbv zeta. rewrite run_loop_unfold.
  destruct (result (cycle env w)) as [u|e] eqn:Hr;
    [|destruct (is_Exception e) eqn:He].
  - left. unfold world, events. simpl. rewrite filter_app.
    repeat split. discriminate.
  - left. unfold world, events. simpl. rewrite filter_app. simpl.
    repeat split. intros E. injection E as ->. discriminate.
  - right. repeat split. exists e. split; [reflexivity|assumption].
Qed.

(** X4: Every packet the loop builds is posted exactly once, at once and
    unchanged, to [<oracle_url>/submit-poe], and nothing else is posted.
    Each posted packet moves exactly one of the two counters up by one,
    except a packet whose request is interrupted, which ends the run: so
    over a run the counters grow together by the number of packets built,
    or by one less, and by exactly that number when no request is
    interrupted.  Neither counter ever goes down. *)
Theorem every_packet_is_posted_once (envs : list (CycleEnv F)) w :
  let run := run_loop envs w in
  let before := readings_sent (this w) + readings_failed (this w) in
  let after := readings_sent (this (world run))
               + readings_failed (this (world run)) in
  posted_once (oracle_url (this w) ++ "/submit-poe")
    (filter is_packet_event (events run)) /\
  before + packets_built (events run) - 1 <= after
    <= before + packets_built (events run) /\
  ((forall env, In env envs -> env_post env <> Interrupted) ->
   after = before + packets_built (events run)) /\
  readings_sent (this w) <= readings_sent (this (world run)) /\
  readings_failed (this w) <= readings_failed (this (world run)).
Proof.
  cbv zeta. revert w. induction envs as [|env rest IH]; intros w.
  - unfold packets_built, world, events. simpl. repeat split; lia.
  - destruct (IH (world (cycle env w)))
      as (IHp & IHsum & IHeq & IHsent & IHfailed).
    destruct (cycle_identity env w) as (_ & _ & Hurl & _).
    rewrite Hurl in IHp.
    assert (IHeq' : (forall env', In env' (env :: rest) ->
                                  env_post env' <> Interrupted) ->
                    readings_sent (this (world (run_loop rest (world (cycle env w)))))
                    + readings_failed
                        (this (world (run_loop rest (world (cycle env w)))))
                    = readings_sent (this (world (cycle env w)))
                      + readings_failed (this (world (cycle env w)))
                      + packets_built
                          (events (run_loop rest (world (cycle env w))))).
    { intros Hno. apply IHeq. intros env' Hin. apply Hno. right. exact Hin. }
    clear IHeq.
    rewrite <- (packets_built_filter (events (run_loop (env :: rest) w))).
    rewrite <- (packets_built_filter
                  (events (run_loop rest (world (cycle env w))))) in *.
    destruct (run_loop_split env rest w)
      as [(Hw & Hev & Hnot)|(Hw & Hev & e & Hr & He)];
      cbv zeta in *; rewrite Hw, Hev; clear Hw Hev.
    + rewrite packets_built_app.
      destruct (cycle_packet_events env w)
        as [(E & Hs & Hf)
           |[(packet & ok & E & Hs & Hf)|(packet & E & Hs & Hf & Hr & Hpost)]];
        cbv zeta in *; [| |contradiction]; rewrite E.
      * change (packets_built nil) with 0. cbn [app].
        repeat split; try lia; try assumption.
        intros Hno. specialize (IHeq' Hno). lia.
      * change (packets_built [EvPacket packet; EvPost _ packet]) with 1.
        cbn [app posted_once].
        destruct ok; repeat split; try lia; try assumption;
          intros Hno; specialize (IHeq' Hno); lia.
    + clear IHp IHsum IHsent IHfailed IHeq'.
      destruct (cycle_packet_events env w)
        as [(E & Hs & Hf)
           |[(packet & ok & E & Hs & Hf)|(packet & E & Hs & Hf & Hr' & Hpost)]];
        cbv zeta in *; rewrite E.
      * change (packets_built nil) with 0.
        repeat split; try lia.
      * change (packets_built [EvPacket packet; EvPost _ packet]) with 1.
        cbn [posted_once].
        destruct ok; repeat split; lia.
      * change (packets_built [EvPacket packet; EvPost _ packet]) with 1.
        cbn [posted_once]. repeat split; try lia.
        intros Hno. exfalso.
        apply (Hno env); [left; reflexivity|exact Hpost].
Qed.

(** X5: No iteration assigns [config], [meter_id], [oracle_url], [private_key]
    or [reading_interval]; so every packet of a run carries the device
    identifier and the meter identifier of the reader the run started
    with. *)
Theorem run_packets_carry_one_identity (envs : list (CycleEnv F)) w packet :
  In (EvPacket packet) (events (run_loop envs w)) ->
  same_identity (this w) (this (world (run_loop envs w))) /\
  get "device_id" packet = Some (JStr (device_id_of (this w))) /\
  get "meter_id" packet = Some (JStr (meter_id (this w))).
Proof.
  intros Hin. split; [apply run_loop_identity|].
  revert w Hin. induction envs as [|env rest IH]; intros w Hin;
    [contradiction|].
  assert (Hnext :
    In (EvPacket packet) (events (run_loop rest (world (cycle env w)))) ->
    get "device_id" packet = Some (JStr (device_id_of (this w))) /\
    get "meter_id" packet = Some (JStr (meter_id (this w)))).
  { intros Hr. apply IH in Hr.
    destruct (cycle_identity env w) as (Hcfg & Hid & _).
    unfold device_id_of in *. rewrite Hcfg, Hid in Hr. exact Hr. }
  assert (Hfirst :
    In (EvPacket packet) (events (cycle env w)) ->
    get "device_id" packet = Some (JStr (device_id_of (this w))) /\
    get "meter_id" packet = Some (JStr (meter_id (this w)))).
  { intros Hc. apply cycle_packet in Hc. destruct Hc as [_ Hb].
    apply create_poe_packet_built in Hb.
    destruct Hb as (st & en & cu & _ & _ & _ & ->). split; reflexivity. }
  rewrite run_loop_unfold in Hin.
  destruct (result (cycle env w)) as [u|e]; [|destruct (is_Exception e)];
    unfold events in Hin; simpl in Hin.
  - apply in_app_or in Hin. destruct Hin; auto.
  - apply in_app_or in Hin. destruct Hin as [Hin|[Hin|Hin]]; auto.
    discriminate.
  - auto.
Qed.

(** *** The rolling buffer *)

Lemma last_n_short {A} (n : nat) (l : list A) :
  (List.length l <= n)%nat -> last_n n l = l.
Proof.
  intros Hl. unfold last_n. replace (List.length l - n)%nat with 0%nat by lia.
  reflexivity.
Qed.

Lemma last_n_length {A} (n : nat) (l : list A) :
  (List.length (last_n n l) <= n)%nat.
Proof. unfold last_n. rewrite length_skipn. lia. Qed.

Lemma last_n_app {A} (n : nat) (l l' : list A) :
  last_n n (last_n n l ++ l') = last_n n (l ++ l').
Proof.
  unfold last_n. rewrite !length_app, length_skipn, !skipn_app, skipn_skipn,
    length_skipn.
  f_equal; f_equal; lia.
Qed.

Lemma rolled_last_n (buffer : list (SensorReading F))
    (reading : SensorReading F) :
  (List.length buffer <= 6)%nat ->
  rolled buffer reading = last_n 6 (buffer ++ [reading]).
Proof.
  intros Hl. unfold rolled, buffer_size, last_n. cbv zeta.
  rewrite length_app. simpl List.length.
  destruct (6 <? Z.of_nat (List.length buffer + 1)) eqn:E.
  - apply Z.ltb_lt in E.
    replace (List.length buffer + 1 - 6)%nat with 1%nat by lia.
    destruct buffer; reflexivity.
  - apply Z.ltb_ge in E.
    replace (List.length buffer + 1 - 6)%nat with 0%nat by lia.
    reflexivity.
Qed.

Lemma run_loop_buffer (envs : list (CycleEnv F)) w :
  (List.length (reading_buffer w) <= 6)%nat ->
  reading_buffer (world (run_loop envs w))
  = last_n 6 (reading_buffer w ++ map env_reading (iterations envs w)).
Proof.
  revert w. induction envs as [|env rest IH]; intros w Hl.
  - simpl. rewrite app_nil_r, last_n_short by exact Hl. reflexivity.
  - rewrite run_loop_step. simpl iterations.
    pose proof (cycle_buffer env w) as Hb.
    rewrite (rolled_last_n _ _ Hl) in Hb.
    assert (Hl' : (List.length (reading_buffer (world (cycle env w))) <= 6)%nat)
      by (rewrite Hb; apply last_n_length).
    assert (Hrest :
      reading_buffer (world (run_loop rest (world (cycle env w))))
      = last_n 6
          (reading_buffer w
             ++ map env_reading
                  (env :: iterations rest (world (cycle env w))))).
    { rewrite (IH _ Hl'), Hb, last_n_app, <- app_assoc. reflexivity. }
    destruct (result (cycle env w)) as [u|e]; [exact Hrest|].
    destruct (is_Exception e); [exact Hrest|]. exact Hb.
Qed.

(** X6: [run] keeps the readings of its last six iterations, oldest first,
    and never more than six: the buffer it ends with is the last six
    readings of the iterations it ran. *)
Theorem run_keeps_the_last_six_readings (envs : list (CycleEnv F)) w :
  let fresh := {| this := this w; reading_buffer := [] |} in
  reading_buffer (world (run envs w))
  = last_n 6 (map env_reading (iterations envs fresh)) /\
  (List.length (reading_buffer (world (run envs w))) <= 6)%nat.
Proof.
  cbv zeta.
  assert (E : reading_buffer (world (run envs w))
              = last_n 6 (map env_reading
                            (iterations envs
                               {| this := this w; reading_buffer := [] |}))).
  { destruct w as [self buffer]. rewrite run_from_empty_buffer.
    rewrite run_loop_buffer by (simpl; lia). reflexivity. }
  split; [exact E|]. rewrite E. apply last_n_length.
Qed.

(** X3: The readings a packet carries are the rolled buffer of its iteration:
    the iteration's own reading last, and at most six when the buffer held
    at most six before. *)
Theorem packet_carries_the_rolled_buffer env w packet :
  In (EvPacket packet) (events (cycle env w)) ->
  (List.length (reading_buffer w) <= 6)%nat ->
  exists older,
    get "sensor_readings" packet
    = Some (JList (map (@JDict F)
                     (map asdict_reading (older ++ [env_reading env])))) /\
    (older ++ [env_reading env])%list = reading_buffer (world (cycle env w)) /\
    (List.length older <= 5)%nat.
Proof.
  intros Hin Hl. apply cycle_packet in Hin. destruct Hin as [_ Hb].
  apply create_poe_packet_built in Hb.
  destruct Hb as (st & en & cu & _ & _ & _ & ->).
  rewrite cycle_buffer.
  destruct (rolled_ends_with (reading_buffer w) (env_reading env))
    as [older Ho].
  exists older. rewrite <- Ho. repeat split.
  pose proof (last_n_length 6 (reading_buffer w ++ [env_reading env])) as Hn.
  rewrite <- (rolled_last_n _ _ Hl), Ho, length_app in Hn. simpl in Hn. lia.
Qed.

(** *** Failures *)


(** X9: [send_to_oracle] makes at most one request: one, to
    [<oracle_url>/submit-poe] and with the packet as given, when the packet
    has an [energy_wh] entry, whatever the answer; none when it has not,
    and the call then counts a failure.  It changes the two counters
    only. *)
Theorem send_to_oracle_makes_one_request (outcome : PostOutcome) packet w :
  let sent := send_to_oracle outcome packet w in
  events sent
  = match get "energy_wh" packet with
    | Some _ => [EvPost (oracle_url (this w) ++ "/submit-poe") packet]
    | None => []
    end /\
  (get "energy_wh" packet = None ->
   result sent = Ok false /\
   readings_failed (this (world sent)) = readings_failed (this w) + 1) /\
  same_identity (this w) (this (world sent)) /\
  cumulative_energy_wh (this (world sent)) = cumulative_energy_wh (this w) /\
  last_reading_time (this (world sent)) = last_reading_time (this w) /\
  reading_buffer (world sent) = reading_buffer w.
Proof.
  cbv zeta. rewrite send_to_oracle_cases.
  destruct (get "energy_wh" packet) as [v|];
    [destruct outcome as [status text| | |]; [destruct (status =? 200)| | |]|];
    unfold events, result, world; simpl; repeat split; discriminate.
Qed.

(** X2: The packet [create_poe_packet] returns has the seven fields of
    [PoEPacket] in declaration order, then [signature], then [meter_id]:
    nine distinct keys; and building it changes nothing and observes
    nothing. *)
Theorem created_packet_has_nine_fields (now energy_wh : F)
    (readings : list (SensorReading F)) w packet :
  result (create_poe_packet now energy_wh readings w) = Ok packet ->
  keys packet
  = ["device_id"; "timestamp"; "energy_wh"; "cumulative_energy";
     "sensor_readings"; "firmware_version"; "protocol_version";
     "signature"; "meter_id"] /\
  NoDup (keys packet) /\
  get "device_id" packet = Some (JStr (device_id_of (this w))) /\
  get "sensor_readings" packet
  = Some (JList (map (@JDict F) (map asdict_reading readings))) /\
  get "firmware_version" packet = Some (JStr "1.0.0") /\
  get "protocol_version" packet = Some (JStr "poe-v1") /\
  world (create_poe_packet now energy_wh readings w) = w /\
  events (create_poe_packet now energy_wh readings w) = [].
Proof.
  intros Hb.
  destruct (create_poe_packet_keeps_world now energy_wh readings w) as [Hw Hev].
  apply create_poe_packet_built in Hb.
  destruct Hb as (st & en & cu & _ & _ & _ & ->).
  repeat split; try assumption.
  simpl. repeat constructor; simpl; intuition discriminate.
Qed.

(** X8: A request interrupted while it is under way ends the run at once:
    the packet was built and its request started, but the packet is counted
    neither as sent nor as failed; the increment is in the total and
    [last_reading_time] keeps its old value; no later iteration runs. *)
Theorem interrupted_request_ends_the_run
    env (rest : list (CycleEnv F)) w packet :
  In (EvPacket packet) (events (cycle env w)) ->
  env_post env = Interrupted ->
  let w1 :=
    {| this := with_cumulative_energy_wh
                 (cumulative_energy_wh (this w) + increment env w)%py (this w);
       reading_buffer := rolled (reading_buffer w) (env_reading env) |} in
  run_loop (env :: rest) w
  = (Ok tt, w1,
     [EvPacket packet; EvPost (oracle_url (this w) ++ "/submit-poe") packet]).
Proof.
  intros Hin Hint. cbv zeta. rewrite run_loop_unfold.
  cycle_cases env w; rewrite Hc in Hin |- *; unfold events, result, world in *;
    simpl in *.
  - apply pause_events in Hin. discriminate.
  - contradiction.
  - contradiction.
  - destruct Hin as [E|[E|[]]]; [|discriminate].
    injection E as <-. reflexivity.
Qed.

End RunFacts.

(** ** Signs and zeros in binary64 *)

(** A float that is a NaN, a zero, or of the sign [s]. *)
Definition of_sign (s : bool) (x : spec_float) : Prop :=
  match x with
  | S754_nan | S754_zero _ => True
  | S754_infinity s' | S754_finite s' _ _ => s' = s
  end.

(** A float that is a NaN or a zero. *)
Definition zero_or_nan (x : spec_float) : Prop :=
  match x with
  | S754_nan | S754_zero _ => True
  | _ => False
  end.

Lemma binary_round_aux_sign (prec emax : Z) (s : bool) (m e : Z)
    (l : location) :
  of_sign s (binary_round_aux prec emax s m e l).
Proof.
  unfold binary_round_aux.
  destruct (shr_fexp prec emax m e l) as [mrs' e'].
  destruct (shr_fexp prec emax _ e' loc_Exact) as [mrs'' e''].
  destruct (shr_m mrs'') as [|p|p]; simpl; try exact I.
  destruct (e'' <=? emax - prec); reflexivity.
Qed.

Lemma SFmul_sign (prec emax : Z) (s t : bool) (x y : spec_float) :
  of_sign s x -> of_sign t y -> of_sign (xorb s t) (SFmul prec emax x y).
Proof.
  destruct x as [sx|sx| |sx mx ex], y as [sy|sy| |sy my ey]; simpl;
    intros Hx Hy; subst; try exact I; try reflexivity.
  apply binary_round_aux_sign.
Qed.

Lemma SFdiv_sign (prec emax : Z) (s : bool) (x : spec_float)
    (m : positive) (e : Z) :
  of_sign s x -> of_sign s (SFdiv prec emax x (S754_finite false m e)).
Proof.
  destruct x as [sx|sx| |sx mx ex]; simpl; intros Hx; subst; try exact I.
  - destruct s; reflexivity.
  - destruct (SFdiv_core_binary prec emax (Z.pos mx) ex (Z.pos m) e)
      as [[mz ez] lz].
    replace (xorb s false) with s by (destruct s; reflexivity).
    apply binary_round_aux_sign.
Qed.

Lemma SFmul_zero_l (prec emax : Z) (x y : spec_float) :
  zero_or_nan x -> zero_or_nan (SFmul prec emax x y).
Proof.
  destruct x as [sx|sx| |sx mx ex], y as [sy|sy| |sy my ey]; simpl;
    intros Hx; try exact I; contradiction.
Qed.

Lemma SFmul_zero_r (prec emax : Z) (x y : spec_float) :
  zero_or_nan y -> zero_or_nan (SFmul prec emax x y).
Proof.
  destruct x as [sx|sx| |sx mx ex], y as [sy|sy| |sy my ey]; simpl;
    intros Hx; try exact I; contradiction.
Qed.

Lemma SFdiv_zero (prec emax : Z) (x : spec_float) (m : positive) (e : Z) :
  zero_or_nan x -> zero_or_nan (SFdiv prec emax x (S754_finite false m e)).
Proof.
  destruct x as [sx|sx| |sx mx ex]; simpl; intros Hx; try exact I;
    contradiction.
Qed.

Lemma zero_or_nan_not_positive (x : spec_float) :
  zero_or_nan x -> SFltb (S754_zero false) x = false.
Proof. destruct x; simpl; intros Hx; try reflexivity; contradiction. Qed.

Lemma negative_not_positive (x : spec_float) :
  of_sign true x -> SFltb (S754_zero false) x = false.
Proof.
  destruct x as [sx|sx| |sx mx ex]; simpl; intros Hx; subst; reflexivity.
Qed.

Section Binary64Edges.
Import IEEE Json.
Local Open Scope float_scope.
Implicit Types (x y : float) (w : World float) (env : CycleEnv float).

(** A float that is neither an infinity nor a NaN. *)
Definition is_finite x : bool :=
  match Prim2SF x with
  | S754_zero _ | S754_finite _ _ _ => true
  | S754_infinity _ | S754_nan => false
  end.

Lemma trunc_finite x :
  match trunc x with
  | Ok _ => is_finite x = true
  | Raise e => is_finite x = false /\ (e = OverflowError \/ e = ValueError)
  end.
Proof.
  unfold trunc, is_finite. destruct (Prim2SF x); auto.
Qed.

Lemma nonneg_sign x : (0 <=? x) = true -> of_sign false (Prim2SF x).
Proof.
  rewrite FloatAxioms.leb_spec. unfold SFleb.
  change (Prim2SF 0) with (S754_zero false).
  destruct (Prim2SF x) as [s|s| |s m e]; simpl; try (intros; exact I);
    destruct s; intros E; try reflexivity; discriminate.
Qed.

Lemma negative_sign x : (x <? 0) = true -> of_sign true (Prim2SF x).
Proof.
  rewrite FloatAxioms.ltb_spec. unfold SFltb.
  change (Prim2SF 0) with (S754_zero false).
  destruct (Prim2SF x) as [s|s| |s m e]; simpl; try (intros; exact I);
    destruct s; intros E; try reflexivity; discriminate.
Qed.

Lemma zero_is_zero_or_nan x : (x =? 0) = true -> zero_or_nan (Prim2SF x).
Proof.
  intros Hx. destruct (eqb_zero x Hx) as [s ->]. exact I.
Qed.

(** The energy of a reading, before the clamp. *)
Definition raw_energy (reading : SensorReading float) (time_delta : float)
  : float :=
  (voltage reading * current reading * number_value (power_factor reading)
   * time_delta) / of_int 3600.

Lemma calculate_energy_raw (reading : SensorReading float) time_delta w :
  calculate_energy reading time_delta w =
  (Ok (if 0 <? raw_energy reading time_delta
       then raw_energy reading time_delta else 0), w, []).
Proof. reflexivity. Qed.

Lemma raw_energy_spec (reading : SensorReading float) time_delta :
  Prim2SF (raw_energy reading time_delta) =
  SF64div
    (SF64mul
       (SF64mul
          (SF64mul (Prim2SF (voltage reading)) (Prim2SF (current reading)))
          (Prim2SF (number_value (power_factor reading))))
       (Prim2SF time_delta))
    (S754_finite false 7916483719987200 (-41)).
Proof.
  unfold raw_energy.
  rewrite FloatAxioms.div_spec, !FloatAxioms.mul_spec, binary64_3600.
  reflexivity.
Qed.

Lemma skipped_when_not_positive env w :
  (0 <? raw_energy (env_reading env)
          (env_current_time env - last_reading_time (this w))) = false ->
  increment env w = 0 /\
  (forall ev, In ev (events (cycle env w)) -> is_packet_event ev = false) /\
  readings_sent (this (world (cycle env w))) = readings_sent (this w) /\
  readings_failed (this (world (cycle env w))) = readings_failed (this w) /\
  cumulative_energy_wh (this (world (cycle env w)))
    = cumulative_energy_wh (this w) /\
  last_reading_time (this (world (cycle env w))) = env_current_time env.
Proof.
  intros Hraw.
  assert (Hinc : increment env w = 0).
  { unfold increment. rewrite calculate_energy_raw. unfold result. simpl.
    change (@sub float binary64) with PrimFloat.sub.
    rewrite Hraw. reflexivity. }
  assert (Hskip : (increment env w >? of_int 0)%py = false)
    by (rewrite Hinc; reflexivity).
  destruct (cycle_skip_effects env w Hskip)
    as (Hev & Hsent & Hfailed & Hcum & _ & Hclock).
  repeat split; assumption.
Qed.

(** X13: A reading whose voltage, current or power factor is zero (the reading
    of a failed sensor read has all three zero) gives no energy, whatever
    the elapsed time, an infinite or undefined one included: the iteration
    builds no packet, makes no request and leaves the total alone, and it
    moves [last_reading_time] to the current time. *)
Theorem zero_reading_adds_no_energy env w :
  (voltage (env_reading env) =? 0) = true \/
  (current (env_reading env) =? 0) = true \/
  (number_value (power_factor (env_reading env)) =? 0) = true ->
  (forall time_delta w',
      calculate_energy (env_reading env) time_delta w' = (Ok 0, w', [])) /\
  (forall ev, In ev (events (cycle env w)) -> is_packet_event ev = false) /\
  readings_sent (this (world (cycle env w))) = readings_sent (this w) /\
  readings_failed (this (world (cycle env w))) = readings_failed (this w) /\
  cumulative_energy_wh (this (world (cycle env w)))
    = cumulative_energy_wh (this w) /\
  last_reading_time (this (world (cycle env w))) = env_current_time env.
Proof.
  intros Hzero.
  assert (Hraw : forall time_delta,
             (0 <? raw_energy (env_reading env) time_delta) = false).
  { intros time_delta. rewrite FloatAxioms.ltb_spec, raw_energy_spec.
    change (Prim2SF 0) with (S754_zero false).
    apply zero_or_nan_not_positive, SFdiv_zero, SFmul_zero_l.
    destruct Hzero as [Hz|[Hz|Hz]]; apply zero_is_zero_or_nan in Hz.
    - apply SFmul_zero_l, SFmul_zero_l, Hz.
    - apply SFmul_zero_l, SFmul_zero_r, Hz.
    - apply SFmul_zero_r, Hz. }
  split.
  - intros time_delta w'. rewrite calculate_energy_raw, Hraw. reflexivity.
  - apply skipped_when_not_positive, Hraw.
Qed.

(** X14: When the clock has gone backwards since the last iteration (a negative
    elapsed time) and the reading's voltage, current and power factor are
    not negative, [calculate_energy] returns exactly [0.0]: the iteration
    builds no packet, makes no request and leaves the total alone, and it
    takes the earlier time as [last_reading_time]. *)
Theorem backward_clock_adds_no_energy env w :
  (0 <=? voltage (env_reading env)) = true ->
  (0 <=? current (env_reading env)) = true ->
  (0 <=? number_value (power_factor (env_reading env))) = true ->
  (env_current_time env - last_reading_time (this w) <? 0) = true ->
  calculate_energy (env_reading env)
    (env_current_time env - last_reading_time (this w)) w = (Ok 0, w, []) /\
  (forall ev, In ev (events (cycle env w)) -> is_packet_event ev = false) /\
  readings_sent (this (world (cycle env w))) = readings_sent (this w) /\
  readings_failed (this (world (cycle env w))) = readings_failed (this w) /\
  cumulative_energy_wh (this (world (cycle env w)))
    = cumulative_energy_wh (this w) /\
  last_reading_time (this (world (cycle env w))) = env_current_time env.
Proof.
  intros Hv Hc Hpf Hdt.
  assert (Hraw : (0 <? raw_energy (env_reading env)
                         (env_current_time env - last_reading_time (this w)))
                 = false).
  { rewrite FloatAxioms.ltb_spec, raw_energy_spec.
    change (Prim2SF 0) with (S754_zero false).
    apply negative_not_positive, SFdiv_sign.
    change true with (xorb false true). apply SFmul_sign.
    - change false with (xorb false false). apply SFmul_sign.
      + change false with (xorb false false) at 1.
        apply SFmul_sign; apply nonneg_sign; assumption.
      + apply nonneg_sign. assumption.
    - apply negative_sign. assumption. }
  split.
  - rewrite calculate_energy_raw, Hraw. reflexivity.
  - apply skipped_when_not_positive, Hraw.
Qed.

(** X15: [create_poe_packet] returns a packet exactly when the time stamp in
    milliseconds, the energy and the cumulative total are finite floats;
    otherwise it raises what [int()] raises, [OverflowError] for an
    infinity and [ValueError] for a NaN, and in both cases it leaves the
    reader as it was. *)
Theorem packet_needs_finite_values (now energy_wh : float)
    (readings : list (SensorReading float)) w :
  match result (create_poe_packet now energy_wh readings w) with
  | Ok _ =>
      is_finite (now * 1000) = true /\
      is_finite energy_wh = true /\
      is_finite (cumulative_energy_wh (this w)) = true
  | Raise e =>
      (is_finite (now * 1000) = false \/
       is_finite energy_wh = false \/
       is_finite (cumulative_energy_wh (this w)) = false) /\
      (e = OverflowError \/ e = ValueError)
  end /\
  world (create_poe_packet now energy_wh readings w) = w.
Proof.
  split; [|apply create_poe_packet_keeps_world].
  pose proof (trunc_finite (now * 1000)) as H1.
  pose proof (trunc_finite energy_wh) as H2.
  pose proof (trunc_finite (cumulative_energy_wh (this w))) as H3.
  unfold result, create_poe_packet, bind, lift.
  destruct (generate_device_id_returns w) as [device ->].
  change (to_int (now * of_int 1000)%py) with (trunc (now * 1000)).
  change (@to_int float binary64) with trunc.
  destruct (trunc (now * 1000)) as [stamp|e1]; [|simpl; tauto].
  destruct (trunc energy_wh) as [energy|e2]; [|simpl; tauto].
  unfold ret, get_self. cbv beta iota.
  destruct (trunc (cumulative_energy_wh (this w))) as [cumulative|e3];
    [|simpl; tauto].
  cbv beta iota. rewrite sign_packet_returns. simpl. tauto.
Qed.

End Binary64Edges.

(** ** Keys and digests *)

Section KeyFacts.
Import Bytes.
Local Open Scope string_scope.
Local Open Scope Z_scope.

Fixpoint all_chars (p : ascii -> bool) (s : string) : bool :=
  match s with
  | EmptyString => true
  | String c rest => p c && all_chars p rest
  end.

(** The digits [bytes.hex] and [hexdigest] write. *)
Definition is_lower_hex (c : ascii) : bool :=
  let n := Z.of_N (N_of_ascii c) in
  ((48 <=? n) && (n <=? 57)) || ((97 <=? n) && (n <=? 102)).

Fixpoint occurs (c : ascii) (s : string) : Prop :=
  match s with
  | EmptyString => False
  | String c' rest => c' = c \/ occurs c rest
  end.

Lemma hex_octet (b : byte) :
  hex_value (hex_digit (to_Z b / 16)) = Some (to_Z b / 16) /\
  hex_value (hex_digit (to_Z b mod 16)) = Some (to_Z b mod 16) /\
  is_ascii_space (hex_digit (to_Z b / 16)) = false /\
  of_Z (16 * (to_Z b / 16) + to_Z b mod 16) = b /\
  is_lower_hex (hex_digit (to_Z b / 16)) = true /\
  is_lower_hex (hex_digit (to_Z b mod 16)) = true.
Proof. destruct b; vm_compute; repeat split. Qed.

Lemma fromhex_hex (bs : bytes) : fromhex (hex bs) = Some bs.
Proof.
  induction bs as [|b rest IH]; [reflexivity|].
  destruct (hex_octet b) as (Hh & Hl & Hs & Hb & _).
  cbn [hex fromhex]. rewrite Hs, Hh, Hl, IH, Hb. reflexivity.
Qed.

Lemma hex_length (bs : bytes) :
  String.length (hex bs) = (2 * List.length bs)%nat.
Proof.
  induction bs as [|b rest IH]; [reflexivity|].
  cbn [hex String.length List.length]. rewrite IH. lia.
Qed.

Lemma hex_lower (bs : bytes) : all_chars is_lower_hex (hex bs) = true.
Proof.
  induction bs as [|b rest IH]; [reflexivity|].
  destruct (hex_octet b) as (_ & _ & _ & _ & Hh & Hl).
  cbn [hex all_chars]. rewrite Hh, Hl, IH. reflexivity.
Qed.

Lemma fromhex_rejects (s : string) (c : ascii) :
  occurs c s -> hex_value c = None -> is_ascii_space c = false ->
  fromhex s = None.
Proof.
  intros Hin Hhex Hspace.
  assert (Hboth :
    (occurs c s -> fromhex s = None) /\
    (forall d, occurs c (String d s) -> fromhex (String d s) = None)).
  { clear Hin. induction s as [|a s IH].
    - split; [intros []|]. intros d [->|[]]. simpl. rewrite Hspace. reflexivity.
    - destruct IH as [IH1 IH2]. split; [apply IH2|].
      intros d Hd. cbn [fromhex].
      destruct (is_ascii_space d) eqn:Ed.
      + apply IH2. destruct Hd as [->|Hd]; [congruence|exact Hd].
      + destruct Hd as [->|[->|Hd]].
        * rewrite Hhex. reflexivity.
        * rewrite Hhex. destruct (hex_value d); reflexivity.
        * rewrite (IH1 Hd).
          destruct (hex_value d); [destruct (hex_value a)|]; reflexivity. }
  apply Hboth. exact Hin.
Qed.

End KeyFacts.

Section InitFacts.
Context {F : Type} `{PyFloat F}.
Local Open Scope string_scope.
Local Open Scope Z_scope.

(** X10: [__init__] accepts every key written as [bytes.hex] writes it and
    stores exactly the octets encoded; the reader starts with a total of
    zero, both counters at zero, the clock at the time of construction and
    the interval of the configuration, 300 seconds by default. *)
Theorem init_reads_back_a_hex_key (cfg : Config F) (now : F)
    (key : Bytes.bytes) :
  cfg_private_key cfg = Bytes.hex key ->
  init cfg now =
  Ok {| config := cfg;
        meter_id := cfg_meter_id cfg;
        oracle_url := cfg_oracle_url cfg;
        private_key := key;
        cumulative_energy_wh := of_int 0;
        last_reading_time := now;
        reading_interval :=
          match cfg_reading_interval cfg with
          | Some seconds => seconds
          | None => of_int 300
          end;
        readings_sent := 0;
        readings_failed := 0 |}.
Proof.
  intros Hkey. unfold init. rewrite Hkey, fromhex_hex. reflexivity.
Qed.

(** X11: [__init__] raises [ValueError] when the key has a character that is
    neither a hexadecimal digit nor ASCII white space, wherever it is. *)
Theorem init_rejects_a_key_that_is_not_hex (cfg : Config F) (now : F)
    (c : ascii) :
  occurs c (cfg_private_key cfg) ->
  Bytes.hex_value c = None -> Bytes.is_ascii_space c = false ->
  init cfg now = Raise ValueError.
Proof.
  intros Hin Hhex Hspace. unfold init.
  rewrite (fromhex_rejects _ c Hin Hhex Hspace). reflexivity.
Qed.

End InitFacts.

Section DigestFacts.
Import Sha256.
Local Open Scope Z_scope.

Lemma round_length (st : round_state) (k : word) :
  List.length (fst (round st k)) = List.length (fst st).
Proof.
  destruct st as [v w]. unfold round.
  destruct v as [|a [|b [|c [|d [|e [|f [|g [|h [|i v]]]]]]]]]; reflexivity.
Qed.

Lemma rounds_length (ks : list word) (st : round_state) :
  List.length (fst (fold_left round ks st)) = List.length (fst st).
Proof.
  revert st. induction ks as [|k ks IH]; intros st; [reflexivity|].
  cbn [fold_left]. rewrite IH. apply round_length.
Qed.

Lemma compress_length (h block : list word) :
  List.length (compress h block) = List.length h.
Proof.
  unfold compress.
  pose proof (rounds_length K (h, block)) as Hl.
  destruct (fold_left round K (h, block)) as [v w'].
  rewrite length_map, length_combine. simpl in Hl. lia.
Qed.

Lemma fold_left_keeps_length {A B : Type} (f : list A -> B -> list A)
    (blocks : list B) :
  (forall h b, List.length (f h b) = List.length h) ->
  forall h, List.length (fold_left f blocks h) = List.length h.
Proof.
  intros Hf. induction blocks as [|b blocks IH]; intros h; [reflexivity|].
  cbn [fold_left]. rewrite IH. apply Hf.
Qed.

Lemma digest_words_length (msg : Bytes.bytes) :
  List.length (digest_words msg) = 8%nat.
Proof.
  unfold digest_words. cbv zeta.
  rewrite (fold_left_keeps_length compress _ compress_length).
  reflexivity.
Qed.

Lemma digest_length (msg : Bytes.bytes) : List.length (digest msg) = 32%nat.
Proof.
  unfold digest. pose proof (digest_words_length msg) as Hl.
  destruct (digest_words msg) as [|a [|b [|c [|d [|e [|f [|g [|h [|]]]]]]]]];
    try discriminate.
  reflexivity.
Qed.

Lemma hexdigest_shape (msg : Bytes.bytes) :
  String.length (hexdigest msg) = 64%nat /\
  all_chars is_lower_hex (hexdigest msg) = true.
Proof.
  unfold hexdigest. rewrite hex_length, digest_length, hex_lower.
  split; reflexivity.
Qed.

End DigestFacts.

Section IdentifierFacts.
Context {F : Type} `{PyFloat F}.
Import Json.

(** X12: Whatever the meter's identity and whatever the packet and the key,
    [generate_device_id] and [sign_packet] return, without raising and
    without touching the state, a string of 64 lower-case hexadecimal
    digits. *)
Theorem identifiers_are_64_hex_digits (packet : dict F) (w : World F) :
  exists device signature,
    generate_device_id w = (Ok device, w, []) /\
    sign_packet packet w = (Ok signature, w, []) /\
    String.length device = 64%nat /\
    all_chars is_lower_hex device = true /\
    String.length signature = 64%nat /\
    all_chars is_lower_hex signature = true.
Proof.
  do 2 eexists. split; [reflexivity|]. split; [reflexivity|].
  repeat split; apply hexdigest_shape.
Qed.

End IdentifierFacts.

(** ** Start-up *)

Section StartupFacts.
Context {F : Type} `{PyFloat F}.
Import Json.
Local Open Scope string_scope.
Local Open Scope Z_scope.

Lemma get_set_same (k : string) (v : value F) (items : dict F) :
  get k (set k v items) = Some v.
Proof.
  induction items as [|[k' v'] rest IH]; simpl.
  - rewrite String.eqb_refl. reflexivity.
  - destruct (String.eqb k k') eqn:E; simpl.
    + rewrite String.eqb_refl. reflexivity.
    + rewrite E. exact IH.
Qed.

Lemma get_set_other (k k' : string) (v : value F) (items : dict F) :
  k' <> k -> get k' (set k v items) = get k' items.
Proof.
  intros Hne. induction items as [|[k0 v0] rest IH]; simpl.
  - destruct (String.eqb k' k) eqn:E; [|reflexivity].
    apply String.eqb_eq in E. contradiction.
  - destruct (String.eqb k k0) eqn:E; simpl.
    + apply String.eqb_eq in E. subst k0.
      destruct (String.eqb k' k) eqn:E'; [|reflexivity].
      apply String.eqb_eq in E'. contradiction.
    + destruct (String.eqb k' k0); [reflexivity|exact IH].
Qed.

Lemma set_keeps_keys_distinct (k : string) (v : value F) (items : dict F) :
  NoDup (keys items) -> NoDup (keys (set k v items)).
Proof.
  unfold keys. induction items as [|[k' v'] rest IH]; simpl; intros Hnd.
  - constructor; [intros []|constructor].
  - inversion Hnd as [|? ? Hnotin Hnd']; subst.
    destruct (String.eqb k k') eqn:E; simpl.
    + apply String.eqb_eq in E. subst k'. constructor; assumption.
    + constructor; [|apply IH; assumption].
      intros Hin. apply Hnotin. clear IH Hnd Hnd' Hnotin.
      induction rest as [|[k0 v0] rest IH]; simpl in *.
      * destruct Hin as [E'|[]]. subst k'.
        rewrite String.eqb_refl in E. discriminate.
      * destruct (String.eqb k k0) eqn:E0; simpl in *.
        -- apply String.eqb_eq in E0. subst k0.
           destruct Hin as [E'|Hin]; [|right; exact Hin].
           subst k'. rewrite String.eqb_refl in E. discriminate.
        -- destruct Hin as [E'|Hin]; [left; exact E'|right; apply IH; exact Hin].
Qed.

(** X16: [load_config] returns a configuration only when the file holds one,
    and then returns that value as parsed, nothing added or changed; a
    JSON object is accepted exactly when it has the three keys [meter_id],
    [oracle_url] and [private_key], whatever their values, and is
    otherwise refused with the first of them, in that order, that is
    missing.  A missing file, an unreadable one and a text that is not
    JSON raise the exception of the failure. *)
Theorem load_config_checks_required_fields (items : dict F) :
  load_config (Parsed (JDict items)) =
  match get "meter_id" items, get "oracle_url" items,
        get "private_key" items with
  | None, _, _ => inl (MissingField "meter_id")
  | Some _, None, _ => inl (MissingField "oracle_url")
  | Some _, Some _, None => inl (MissingField "private_key")
  | Some _, Some _, Some _ => inr (JDict items)
  end /\
  (forall (file : FileOutcome F) (config : value F),
      load_config file = inr config ->
      file = Parsed config /\
      forall field, In field required_fields ->
                    contains config field = Some true) /\
  @load_config F FileMissing = inl FileNotFoundError /\
  @load_config F Malformed = inl JSONDecodeError /\
  (forall reason, @load_config F (Unreadable reason) = inl (OSError reason)).
Proof.
  split; [|split; [|repeat split]].
  - unfold load_config, required_fields. cbn [check_fields contains].
    destruct (get "meter_id" items); [|reflexivity].
    destruct (get "oracle_url" items); [|reflexivity].
    destruct (get "private_key" items); reflexivity.
  - intros file config. destruct file as [|reason| |parsed]; try discriminate.
    unfold load_config, required_fields. cbn [check_fields].
    destruct (contains parsed "meter_id") as [[|]|] eqn:E1; try discriminate.
    destruct (contains parsed "oracle_url") as [[|]|] eqn:E2; try discriminate.
    destruct (contains parsed "private_key") as [[|]|] eqn:E3; try discriminate.
    intros E. injection E as <-. split; [reflexivity|].
    intros field [<-|[<-|[<-|[]]]]; assumption.
Qed.

(** X17: The interval given on the command line replaces the configured one
    and touches no other entry; but an interval of 0 is taken as no
    interval at all, and the configured value stays. *)
Theorem interval_zero_is_no_override (interval : Z) (items : dict F) :
  override_interval (Some 0) (JDict items) = inr (JDict items) /\
  override_interval None (JDict items) = inr (JDict items) /\
  (interval <> 0 ->
   exists items',
     override_interval (Some interval) (JDict items) = inr (JDict items') /\
     get "reading_interval" items' = Some (JInt interval) /\
     (forall key, key <> "reading_interval" -> get key items' = get key items) /\
     (NoDup (keys items) -> NoDup (keys items'))).
Proof.
  split; [reflexivity|]. split; [reflexivity|].
  intros Hne. unfold override_interval.
  destruct (interval =? 0) eqn:E; [apply Z.eqb_eq in E; contradiction|].
  eexists. split; [reflexivity|]. split; [apply get_set_same|].
  split; [intros key Hk; apply get_set_other; exact Hk|].
  apply set_keeps_keys_distinct.
Qed.

End StartupFacts.

(** ** A reader at work *)

Module Examples.
Import IEEE Json.
Local Open Scope string_scope.
Local Open Scope float_scope.
Set Warnings "-inexact-float".

(** *** The runtime model against known values *)

Example sha256_empty :
  Sha256.hexdigest nil
  = "e3b0c44298fc1c149afbf4c8996fb92427ae41e4649b934ca495991b7852b855".
Proof. vm_compute. reflexivity. Qed.

Example sha256_abc :
  Sha256.hexdigest (PyStr.encode "abc")
  = "ba7816bf8f01cfea414140de5dae2223b00361a396177a9cb410ff61f20015ad".
Proof. vm_compute. reflexivity. Qed.

Example repr_values :
  map IEEE.repr
    (0.1 :: 0.95 :: 230 :: 1e22 :: 1e16 :: 5e-324 :: 0.0001 :: 0.00001
      :: 123456789.125 :: (-2.5) :: nil)
  = "0.1" :: "0.95" :: "230.0" :: "1e+22" :: "1e+16" :: "5e-324" :: "0.0001"
      :: "1e-05" :: "123456789.125" :: "-2.5" :: nil.
Proof. vm_compute. reflexivity. Qed.

Example int_truncates_toward_zero :
  (to_int 2.7, to_int (-2.7), to_int infinity, to_int nan)
  = (Ok 2%Z, Ok (-2)%Z, Raise OverflowError, Raise ValueError).
Proof. vm_compute. reflexivity. Qed.

Example dumps_sorts_keys :
  dumps (JDict (("b", JInt 1) :: ("a", JList (JFloat 0.5 :: JNull :: nil)) :: nil))
  = "{" ++ PyStr.quote "a" ++ ":[0.5,null]," ++ PyStr.quote "b" ++ ":1}".
Proof. vm_compute. reflexivity. Qed.

(** 230 V, 10 A, power factor 0.95, one hour: 2185 Wh. *)
Example one_hour_of_generation (w : World float) :
  calculate_energy
    {| timestamp := 0%Z; voltage := 230; current := 10;
       power_factor := NFloat 0.95; frequency := NFloat 50;
       temperature := 25; humidity := 45 |} 3600 w
  = (Ok 2185, w, nil).
Proof. reflexivity. Qed.

Definition sample_config : Config float :=
  {| cfg_meter_id := "solar_panel_001";
     cfg_oracle_url := "https://oracle.bit-earth.org";
     cfg_private_key := "00ff10a5";
     cfg_reading_interval := None;
     cfg_manufacturer := Some "acme";
     cfg_serial_number := None |}.

(** [SmartMeterReader(sample_config)], created at time 1730000000.0 *)
Definition sample_reader : SmartMeterReader float :=
  {| config := sample_config;
     meter_id := "solar_panel_001";
     oracle_url := "https://oracle.bit-earth.org";
     private_key := Bytes.of_Z 0 :: Bytes.of_Z 255 :: Bytes.of_Z 16
                      :: Bytes.of_Z 165 :: nil;
     cumulative_energy_wh := 0;
     last_reading_time := 1730000000;
     reading_interval := 300;
     readings_sent := 0%Z;
     readings_failed := 0%Z |}.

Example sample_reader_init :
  init sample_config 1730000000 = Ok sample_reader.
Proof. reflexivity. Qed.

Definition sample_world : World float :=
  {| this := sample_reader; reading_buffer := nil |}.

Definition sample_reading : SensorReading float :=
  {| timestamp := 1730000300123%Z;
     voltage := 230.12;
     current := 10.5;
     power_factor := NFloat 0.95;
     frequency := NFloat 50;
     temperature := 25.3;
     humidity := 45.7 |}.

(** A reading of a failed sensor read: everything zero. *)
Definition dark_reading : SensorReading float :=
  {| timestamp := 1730000300123%Z;
     voltage := 0; current := 0; power_factor := NFloat 0;
     frequency := NFloat 0; temperature := 0; humidity := 0 |}.

Definition sample_env : CycleEnv float :=
  {| env_cycle_start := 1730000300;
     env_reading := sample_reading;
     env_current_time := 1730000300.5;
     env_packet_time := 1730000300.75;
     env_post := Response 200 "ok";
     env_cycle_end := 1730000301;
     env_interrupt := false |}.

Definition dark_env : CycleEnv float :=
  {| env_cycle_start := 1730000300;
     env_reading := dark_reading;
     env_current_time := 1730000300.5;
     env_packet_time := 1730000300.75;
     env_post := Response 200 "ok";
     env_cycle_end := 1730000301;
     env_interrupt := false |}.

(** The packet the iteration [sample_env] builds. *)
Definition sample_packet : dict float :=
  Eval vm_compute in
    match events (cycle sample_env sample_world) with
    | EvPacket packet :: _ => packet
    | _ => nil
    end.

(** The state in which the iteration calls [create_poe_packet]: the
    increment is already in the total, the reading already in the buffer. *)
Definition charged_world : World float :=
  {| this := with_cumulative_energy_wh 191.60606208333334 sample_reader;
     reading_buffer := sample_reading :: nil |}.

Example sample_increment :
  increment sample_env sample_world = 191.60606208333334.
Proof. reflexivity. Qed.

Example sample_packet_built :
  create_poe_packet 1730000300.75 191.60606208333334
    (sample_reading :: nil) charged_world
  = (Ok sample_packet, charged_world, nil).
Proof. vm_compute. reflexivity. Qed.

(** C1, at the packet above: the attached signature is the one computed
    before [meter_id] was added, so recomputing the signature over all the
    other fields of the final packet, [meter_id] included, gives a different
    string and the check fails; it succeeds only with [meter_id] taken out
    as well. *)
Theorem created_packet_signature_leaves_out_meter_id :
  result (create_poe_packet 1730000300.75 191.60606208333334
            (sample_reading :: nil) charged_world) = Ok sample_packet /\
  get "signature" sample_packet =
    Some (JStr "a8ce54d84e1d7aff565ba9b1155e31cbb535e3c71aa1dcbaa19f24405ca921cf") /\
  signature_of (private_key sample_reader) (remove "signature" sample_packet) =
    "8ef1a2415821a0671b76c92d679d1f405b9a79d55697af9a86bacf2593275c42" /\
  signature_verifies sample_reader sample_packet = false /\
  signature_verifies sample_reader (remove "meter_id" sample_packet) = true.
Proof. vm_compute. repeat split. Qed.

(** C3, the claim as stated fails: the iteration's increment is
    191.60606208333334 and the packet's [energy_wh] is the integer 191. *)
Lemma packet_energy_wh_is_not_the_increment :
  In (EvPacket sample_packet) (events (cycle sample_env sample_world)) /\
  increment sample_env sample_world = 191.60606208333334 /\
  get "energy_wh" sample_packet = Some (JInt 191) /\
  (of_int 191 =? increment sample_env sample_world) = false.
Proof. vm_compute. repeat split. left. reflexivity. Qed.

Lemma packet_energy_wh_is_truncated_increment_witness :
  exists n : Z,
    to_int (increment sample_env sample_world) = Ok n /\
    get "energy_wh" sample_packet = Some (JInt n).
Proof.
  apply (packet_energy_wh_is_truncated_increment
           sample_env sample_world sample_packet).
  vm_compute. left. reflexivity.
Defined.

Lemma packet_cumulative_energy_includes_increment_witness :
  exists n : Z,
    to_int (cumulative_energy_wh sample_reader
            + increment sample_env sample_world)%py = Ok n /\
    get "cumulative_energy" sample_packet = Some (JInt n).
Proof.
  apply (packet_cumulative_energy_includes_increment
           sample_env sample_world sample_packet).
  vm_compute. left. reflexivity.
Defined.

(** C4, the claim as stated fails: [calculate_energy] returns a positive
    increment and leaves the reader, its cumulative total included, as it
    was; the total is not the total before plus the increment. *)
Lemma calculate_energy_does_not_accumulate :
  calculate_energy sample_reading 300.5 sample_world
    = (Ok 191.60606208333334, sample_world, nil) /\
  (cumulative_energy_wh (this sample_world)
   =? cumulative_energy_wh (this sample_world) + 191.60606208333334) = false.
Proof. vm_compute. split; reflexivity. Qed.

(** C7, the claim as stated fails: a response with status 201 is counted
    as a failure. *)
Lemma status_201_is_a_failure :
  send_to_oracle (Response 201 "Created") sample_packet charged_world =
  (Ok false,
   {| this := with_readings_failed 1 (this charged_world);
      reading_buffer := reading_buffer charged_world |},
   EvPost "https://oracle.bit-earth.org/submit-poe" sample_packet :: nil).
Proof. reflexivity. Qed.

Lemma send_to_oracle_success_is_200_witness :
  exists (w' : World float) (evs : list (Event float)),
    send_to_oracle (Response 204 "") sample_packet charged_world
      = (Ok false, w', evs) /\
    readings_sent (this w') = 0%Z /\
    readings_failed (this w') = 1%Z.
Proof.
  apply (send_to_oracle_success_is_200 204 "" sample_packet charged_world).
  - vm_compute. discriminate.
  - lia.
Defined.

(** C9, the claim as stated fails: a call interrupted while the request is
    under way raises [KeyboardInterrupt] and moves neither counter. *)
Lemma send_to_oracle_lets_an_interrupt_out :
  send_to_oracle Interrupted sample_packet charged_world =
  (Raise KeyboardInterrupt, charged_world,
   EvPost "https://oracle.bit-earth.org/submit-poe" sample_packet :: nil).
Proof. reflexivity. Qed.

Lemma sign_packet_ignores_insertion_order_witness :
  let reading1 := ("voltage", JFloat 230.12) :: ("timestamp", JInt 1) :: nil in
  let reading2 := ("timestamp", JInt 1) :: ("voltage", JFloat 230.12) :: nil in
  let packet1 :=
    ("energy_wh", JInt 191)
      :: ("sensor_readings", JList (JDict reading1 :: nil)) :: nil in
  let packet2 :=
    ("sensor_readings", JList (JDict reading2 :: nil))
      :: ("energy_wh", JInt 191) :: nil in
  dumps (JDict packet1) = dumps (JDict packet2) /\
  sign_packet packet1 sample_world = sign_packet packet2 sample_world.
Proof.
  cbv zeta.
  apply (sign_packet_ignores_insertion_order
           (("energy_wh", JInt 191)
              :: ("sensor_readings",
                  JList (JDict (("voltage", JFloat 230.12)
                                  :: ("timestamp", JInt 1) :: nil) :: nil))
              :: nil)
           (("sensor_readings",
             JList (JDict (("timestamp", JInt 1)
                             :: ("voltage", JFloat 230.12) :: nil) :: nil))
              :: ("energy_wh", JInt 191) :: nil)
           sample_world).
  - simpl. repeat split; repeat constructor; simpl; intuition discriminate.
  - simpl. repeat split.
Defined.

Lemma calculate_energy_is_clamped_witness :
  calculate_energy sample_reading (-0) sample_world
  = (Ok 0, sample_world, nil).
Proof.
  apply (proj2 (calculate_energy_is_clamped sample_reading sample_world)).
  reflexivity.
Defined.

Lemma skip_cycle_keeps_reading_and_clock_witness :
  (forall ev, In ev (events (cycle dark_env sample_world)) ->
              is_packet_event ev = false) /\
  readings_sent (this (world (cycle dark_env sample_world))) = 0%Z /\
  readings_failed (this (world (cycle dark_env sample_world))) = 0%Z /\
  reading_buffer (world (cycle dark_env sample_world))
    = rolled nil dark_reading /\
  (exists older,
      reading_buffer (world (cycle dark_env sample_world))
      = (older ++ dark_reading :: nil)%list) /\
  last_reading_time (this (world (cycle dark_env sample_world)))
    = 1730000300.5.
Proof.
  apply (skip_cycle_keeps_reading_and_clock dark_env sample_world).
  vm_compute. reflexivity.
Defined.

(** *** The same reader in exact arithmetic *)

Definition fraction_text (q : Q) : string :=
  PyStr.of_int (Qnum q) ++ "/" ++ PyStr.of_int (Z.pos (Qden q)).

Definition exact_config : Config Q :=
  {| cfg_meter_id := "solar_panel_001";
     cfg_oracle_url := "https://oracle.bit-earth.org";
     cfg_private_key := "00ff10a5";
     cfg_reading_interval := None;
     cfg_manufacturer := Some "acme";
     cfg_serial_number := None |}.

Definition exact_reader : SmartMeterReader Q :=
  {| config := exact_config;
     meter_id := "solar_panel_001";
     oracle_url := "https://oracle.bit-earth.org";
     private_key := Bytes.of_Z 0 :: Bytes.of_Z 255 :: Bytes.of_Z 16
                      :: Bytes.of_Z 165 :: nil;
     cumulative_energy_wh := 0%Q;
     last_reading_time := 1730000000%Q;
     reading_interval := 300%Q;
     readings_sent := 0%Z;
     readings_failed := 0%Z |}.

Definition exact_reading : SensorReading Q :=
  {| timestamp := 1730000300123%Z;
     voltage := (23012 # 100)%Q;
     current := (105 # 10)%Q;
     power_factor := NFloat (95 # 100)%Q;
     frequency := NFloat 50%Q;
     temperature := (253 # 10)%Q;
     humidity := (457 # 10)%Q |}.

Definition exact_env (start : Q) : CycleEnv Q :=
  {| env_cycle_start := start;
     env_reading := exact_reading;
     env_current_time := (start + (1 # 2))%Q;
     env_packet_time := (start + (3 # 4))%Q;
     env_post := NetworkError "timed out";
     env_cycle_end := (start + 1)%Q;
     env_interrupt := false |}.

Lemma cumulative_energy_is_monotone_sum_witness :
  ((cumulative_energy_wh (this sample_world)
    <=? cumulative_energy_wh
          (this (world (run_loop (sample_env :: dark_env :: nil)
                          sample_world)))) = true /\
   cumulative_energy_wh
     (this (world (run_loop (sample_env :: dark_env :: nil) sample_world)))
   = 191.60606208333334) /\
  (cumulative_energy_wh
     (this (world (@run Q (exact fraction_text)
                     (exact_env 1730000300 :: exact_env 1730000600 :: nil)
                     {| this := exact_reader; reading_buffer := nil |})))
   == total (@increments Q (exact fraction_text)
               (exact_env 1730000300 :: exact_env 1730000600 :: nil)
               {| this := exact_reader; reading_buffer := nil |}))%Q.
Proof.
  pose proof (cumulative_energy_is_monotone_sum fraction_text)
    as (Hfloat & _ & _ & Hfresh).
  split.
  - destruct (Hfloat (sample_env :: dark_env :: nil) sample_env sample_world)
      as (_ & Hrun & _ & Hfold).
    + reflexivity.
    + split; [exact Hrun|]. rewrite Hfold. vm_compute. reflexivity.
  - apply (Hfresh exact_config 1730000000%Q exact_reader nil).
    reflexivity.
Defined.

End Examples.


(** ** The reader in a few more situations *)

Module Scenarios.
Import IEEE Json Examples.
Local Open Scope string_scope.
Local Open Scope float_scope.
Set Warnings "-inexact-float".

(** The iteration of [sample_env], its request interrupted. *)
Definition interrupted_env : CycleEnv float :=
  {| env_cycle_start := 1730000300;
     env_reading := sample_reading;
     env_current_time := 1730000300.5;
     env_packet_time := 1730000300.75;
     env_post := Interrupted;
     env_cycle_end := 1730000301;
     env_interrupt := false |}.

(** A reading so large that its power is beyond the range of [float]. *)
Definition overflow_env : CycleEnv float :=
  {| env_cycle_start := 1730000300;
     env_reading :=
       {| timestamp := 1730000300123%Z;
          voltage := 1e200; current := 1e200;
          power_factor := NFloat 0.95; frequency := NInt 50;
          temperature := 25.3; humidity := 45.7 |};
     env_current_time := 1730000300.5;
     env_packet_time := 1730000300.75;
     env_post := Response 200 "ok";
     env_cycle_end := 1730000301;
     env_interrupt := false |}.

(** The clock set back by a thousand seconds since the reader was made. *)
Definition backward_env : CycleEnv float :=
  {| env_cycle_start := 1729999000;
     env_reading := sample_reading;
     env_current_time := 1729999000.5;
     env_packet_time := 1729999000.75;
     env_post := Response 200 "ok";
     env_cycle_end := 1729999001;
     env_interrupt := false |}.

(** A configured frequency of 50, an integer in the file, is written as an
    integer in the packet; 50.0 is written as a float. *)
Example integer_frequency_stays_an_integer :
  get "frequency" (asdict_reading (env_reading overflow_env)) = Some (JInt 50) /\
  dumps (@JInt float 50) = "50" /\
  get "frequency" (asdict_reading sample_reading) = Some (JFloat 50) /\
  dumps (JFloat 50) = "50.0".
Proof. vm_compute. repeat split. Qed.

Lemma signature_covers_packet_without_meter_id_witness :
  signature_verifies (this charged_world) (remove "meter_id" sample_packet)
    = true /\
  get "meter_id" sample_packet = Some (JStr (meter_id (this charged_world))).
Proof.
  apply (signature_covers_packet_without_meter_id
           1730000300.75 191.60606208333334 (sample_reading :: nil)
           charged_world sample_packet).
  vm_compute. reflexivity.
Defined.

Lemma run_packets_carry_one_identity_witness :
  get "device_id" sample_packet
  = Some (JStr (device_id_of sample_reader)) /\
  get "meter_id" sample_packet = Some (JStr "solar_panel_001").
Proof.
  apply (run_packets_carry_one_identity
           (sample_env :: dark_env :: nil) sample_world sample_packet).
  vm_compute. left. reflexivity.
Defined.

Lemma packet_carries_the_rolled_buffer_witness :
  exists older,
    get "sensor_readings" sample_packet
    = Some (JList (map (@JDict float)
                     (map asdict_reading (older ++ sample_reading :: nil)))) /\
    (older ++ sample_reading :: nil)%list
    = reading_buffer (world (cycle sample_env sample_world)) /\
    (List.length older <= 5)%nat.
Proof.
  apply (packet_carries_the_rolled_buffer sample_env sample_world sample_packet).
  - vm_compute. left. reflexivity.
  - simpl. lia.
Defined.


Lemma created_packet_has_nine_fields_witness :
  List.length (keys sample_packet) = 9%nat /\ NoDup (keys sample_packet).
Proof.
  destruct (created_packet_has_nine_fields
              1730000300.75 191.60606208333334 (sample_reading :: nil)
              charged_world sample_packet)
    as (Hkeys & Hnd & _).
  - vm_compute. reflexivity.
  - split; [rewrite Hkeys; reflexivity|exact Hnd].
Defined.

Lemma interrupted_request_ends_the_run_witness :
  run_loop (interrupted_env :: sample_env :: nil) sample_world
  = (Ok tt, charged_world,
     EvPacket sample_packet
       :: EvPost "https://oracle.bit-earth.org/submit-poe" sample_packet
       :: nil).
Proof.
  rewrite (interrupted_request_ends_the_run
             interrupted_env (sample_env :: nil) sample_world sample_packet).
  - reflexivity.
  - vm_compute. left. reflexivity.
  - reflexivity.
Defined.

Lemma init_reads_back_a_hex_key_witness :
  init sample_config 1730000000 = Ok sample_reader.
Proof.
  rewrite (init_reads_back_a_hex_key sample_config 1730000000
             (Bytes.of_Z 0 :: Bytes.of_Z 255 :: Bytes.of_Z 16
                :: Bytes.of_Z 165 :: nil)).
  - reflexivity.
  - reflexivity.
Defined.

Lemma init_rejects_a_key_that_is_not_hex_witness :
  init {| cfg_meter_id := "solar_panel_001";
          cfg_oracle_url := "https://oracle.bit-earth.org";
          cfg_private_key := "00fg";
          cfg_reading_interval := None;
          cfg_manufacturer := None;
          cfg_serial_number := None |} 1730000000
  = Raise ValueError.
Proof.
  apply (init_rejects_a_key_that_is_not_hex _ 1730000000 "g"%char).
  - simpl. right. right. right. left. reflexivity.
  - reflexivity.
  - reflexivity.
Defined.

Lemma zero_reading_adds_no_energy_witness :
  (forall time_delta w',
      calculate_energy dark_reading time_delta w' = (Ok 0, w', nil)) /\
  cumulative_energy_wh (this (world (cycle dark_env charged_world)))
    = 191.60606208333334.
Proof.
  destruct (zero_reading_adds_no_energy dark_env charged_world)
    as (Hzero & _ & _ & _ & Hcum & _).
  - left. reflexivity.
  - split; [exact Hzero|rewrite Hcum; reflexivity].
Defined.

Lemma backward_clock_adds_no_energy_witness :
  calculate_energy sample_reading (1729999000.5 - 1730000000) sample_world
    = (Ok 0, sample_world, nil) /\
  last_reading_time (this (world (cycle backward_env sample_world)))
    = 1729999000.5.
Proof.
  destruct (backward_clock_adds_no_energy backward_env sample_world)
    as (Hzero & _ & _ & _ & _ & Hclock);
    try reflexivity.
  split; [exact Hzero|exact Hclock].
Defined.

End Scenarios.
